(** * Verification of the tutorial code of SaraPao89/CDS

    Two notebooks: [Part_04.ipynb] (functions: [get_counts], [double_list],
    [sorted] with [key], the module [fibo] with [fib] and [fib2]) and the
    ensemble-methods notebook (pandas / scikit-learn glue).

    Python objects live in a heap: a list or a dict is a mutable object
    reached through a reference, so a function that receives a list
    receives the reference and may update the object in place.  Statements
    run in a state-and-exception monad over that heap. *)

From Stdlib Require Import ZArith Lia Ascii Sorting.Permutation Sorting.Sorted.
From stdpp Require Import base gmap list strings.

Open Scope Z_scope.

(* ------------------------------------------------------------------ *)
(** ** Python values and the object heap *)

Definition loc := positive.

Scheme All for list.

(** The values the notebook manipulates: ints, strings, [None], tuples
    (immutable, compared and hashed elementwise) and references to mutable
    objects (lists and dicts). *)
Inductive val :=
  | VInt (z : Z)
  | VStr (s : string)
  | VNone
  | VTuple (vs : list val)
  | VRef (l : loc).

(** Mutable objects; a dict keeps its keys in insertion order (Python 3.7+). *)
Inductive obj :=
  | OList (vs : list val)
  | ODict (kvs : list (val * val)).

Abbreviation heap := (gmap loc obj).

(** Exceptions raised by the runtime primitives and by library calls. *)
Inductive exn :=
  | TypeError (msg : string)
  | IndexError (msg : string)
  | KeyError
  | LibError (what : string).

Inductive outcome (A : Type) :=
  | Normal (a : A)
  | Exc (e : exn).
Arguments Normal {A} a.
Arguments Exc {A} e.

Definition M (A : Type) : Type := heap -> heap * outcome A.

Global Instance M_ret : MRet M := fun A a h => (h, Normal a).
Global Instance M_bind : MBind M := fun A B f m h =>
  match m h with
  | (h', Normal a) => f a h'
  | (h', Exc e) => (h', Exc e)
  end.

Definition raise {A} (e : exn) : M A := fun h => (h, Exc e).

Definition read (l : loc) : M obj := fun h =>
  match h !! l with
  | Some o => (h, Normal o)
  | None => (h, Exc (TypeError "dangling reference"))
  end.

Definition write (l : loc) (o : obj) : M unit := fun h => (<[l := o]> h, Normal tt).

(** Object creation takes a location not used by any live object. *)
Definition alloc (o : obj) : M loc := fun h =>
  let l := fresh (dom h) in (<[l := o]> h, Normal l).

(** [for x in xs: body]. *)
Fixpoint mfor {A} (xs : list A) (body : A -> M unit) : M unit :=
  match xs with
  | [] => mret tt
  | x :: xs' => body x ;; mfor xs' body
  end.

(* ------------------------------------------------------------------ *)
(** ** Equality and hashing *)

(** Python [==] on hashable values: by value on ints and strings,
    elementwise on tuples. *)
Fixpoint val_eqb (x y : val) : bool :=
  match x, y with
  | VInt a, VInt b => Z.eqb a b
  | VStr a, VStr b => String.eqb a b
  | VNone, VNone => true
  | VTuple xs, VTuple ys =>
      (fix go (xs ys : list val) : bool :=
         match xs, ys with
         | [], [] => true
         | a :: xs', b :: ys' => val_eqb a b && go xs' ys'
         | _, _ => false
         end) xs ys
  | VRef a, VRef b => Pos.eqb a b
  | _, _ => false
  end.

(** [hash(x)] succeeds on ints, strings, [None] and tuples of hashable
    values; lists and dicts are unhashable. *)
Fixpoint hashable (x : val) : bool :=
  match x with
  | VInt _ | VStr _ | VNone => true
  | VTuple xs => forallb hashable xs
  | VRef _ => false
  end.

Definition py_hash_check (x : val) : M unit :=
  if hashable x then mret tt else raise (TypeError "unhashable type").

(* ------------------------------------------------------------------ *)
(** ** Lists and dicts *)

Definition read_list (l : loc) : M (list val) :=
  o ← read l;
  match o with
  | OList xs => mret xs
  | ODict _ => raise (TypeError "object is not a list")
  end.

Definition read_dict (d : loc) : M (list (val * val)) :=
  o ← read d;
  match o with
  | ODict kvs => mret kvs
  | OList _ => raise (TypeError "object is not a dict")
  end.

(** [some_list[i]] *)
Definition list_getitem (l : loc) (i : nat) : M val :=
  xs ← read_list l;
  match xs !! i with
  | Some v => mret v
  | None => raise (IndexError "list index out of range")
  end.

(** [some_list[i] = v] *)
Definition list_setitem (l : loc) (i : nat) (v : val) : M unit :=
  xs ← read_list l;
  if decide (i < length xs)%nat then write l (OList (<[i := v]> xs))
  else raise (IndexError "list assignment index out of range").

Fixpoint assoc_find (x : val) (kvs : list (val * val)) : option val :=
  match kvs with
  | [] => None
  | (k, v) :: kvs' => if val_eqb k x then Some v else assoc_find x kvs'
  end.

(** Update the value of an existing key in place, or append a new key. *)
Fixpoint assoc_set (x v : val) (kvs : list (val * val)) : list (val * val) :=
  match kvs with
  | [] => [(x, v)]
  | (k, w) :: kvs' => if val_eqb k x then (k, v) :: kvs' else (k, w) :: assoc_set x v kvs'
  end.

(** [x in d] *)
Definition dict_contains (d : loc) (x : val) : M bool :=
  py_hash_check x ;;
  kvs ← read_dict d;
  mret (if assoc_find x kvs then true else false).

(** [d[x]] *)
Definition dict_getitem (d : loc) (x : val) : M val :=
  py_hash_check x ;;
  kvs ← read_dict d;
  match assoc_find x kvs with
  | Some v => mret v
  | None => raise KeyError
  end.

(** [d[x] = v] *)
Definition dict_setitem (d : loc) (x v : val) : M unit :=
  py_hash_check x ;;
  kvs ← read_dict d;
  write d (ODict (assoc_set x v kvs)).

(** [a + b] on the operands [get_counts] adds. *)
Definition py_add (a b : val) : M val :=
  match a, b with
  | VInt x, VInt y => mret (VInt (x + y))
  | _, _ => raise (TypeError "unsupported operand type(s) for +")
  end.

(* ------------------------------------------------------------------ *)
(** ** [get_counts] (Part_04.ipynb)

<<
def get_counts(s):
    counts = {}
    for x in s:
        if x in counts:
            counts[x] += 1
        else:
            counts[x] = 1
    pairs = counts.items()
    return list(pairs)
>>
    The loop body never writes [s], so iterating over the contents of [s]
    read on entry is what the list iterator sees. *)
Definition count_step (counts : loc) (x : val) : M unit :=
  b ← dict_contains counts x;
  if (b : bool) then
    (c ← dict_getitem counts x;
     c' ← py_add c (VInt 1);
     dict_setitem counts x c')
  else dict_setitem counts x (VInt 1).

Definition get_counts (s : loc) : M val :=
  counts ← alloc (ODict []);
  xs ← read_list s;
  mfor xs (count_step counts) ;;
  pairs ← read_dict counts;
  r ← alloc (OList (map (fun kv : val * val => VTuple [kv.1; kv.2]) pairs));
  mret (VRef r).

(* ------------------------------------------------------------------ *)
(** ** [double_list] (Part_04.ipynb)

<<
def double_list(some_list):
    for pos in range(len(some_list)):
        some_list[pos] *= 2
>>
    [x *= k]: ints multiply, strings and tuples build the [k]-fold
    concatenation, a list is extended in place ([list.__imul__]) and keeps
    its identity; [None] and dicts raise [TypeError]. *)
Fixpoint str_repeat (n : nat) (s : string) : string :=
  match n with
  | O => ""
  | S k => String.append s (str_repeat k s)
  end.

Definition py_imul (v : val) (k : Z) : M val :=
  match v with
  | VInt a => mret (VInt (a * k))
  | VStr s => mret (VStr (str_repeat (Z.to_nat k) s))
  | VTuple xs => mret (VTuple (concat (repeat xs (Z.to_nat k))))
  | VRef l =>
      o ← read l;
      match o with
      | OList ys => write l (OList (concat (repeat ys (Z.to_nat k)))) ;; mret (VRef l)
      | ODict _ => raise (TypeError "unsupported operand type(s) for *=")
      end
  | VNone => raise (TypeError "unsupported operand type(s) for *=")
  end.

(** [range(len(some_list))] is evaluated once; [some_list[pos] *= 2] reads
    the item, multiplies, and stores into the list object as it is then.
    The function returns [None]. *)
Definition double_list (some_list : loc) : M val :=
  xs ← read_list some_list;
  mfor (seq 0 (length xs)) (fun pos =>
    v ← list_getitem some_list pos;
    v' ← py_imul v 2;
    list_setitem some_list pos v') ;;
  mret VNone.

(* ------------------------------------------------------------------ *)
(** ** Cleaning strings with a list of functions (Part_04.ipynb)

<<
names = ['Alfred  ', 'carl', '  Danny    ', 'lucy   ']
clean_ops = [str.strip, str.capitalize]
result = []
for s in names:
    for f in clean_ops:
        s = f(s)
    result.append(s)
result
>>
    A string is a sequence of 8-bit characters, read as the code points
    0..255.  [str.isspace] holds on exactly the code points 9-13, 28-32,
    133 and 160 of that range. *)
Definition py_isspace (c : ascii) : bool :=
  let n := Ascii.nat_of_ascii c in
  ((9 <=? n) && (n <=? 13) || (28 <=? n) && (n <=? 32) || (n =? 133) || (n =? 160))%nat.

Fixpoint drop_while {A} (p : A -> bool) (xs : list A) : list A :=
  match xs with
  | [] => []
  | x :: xs' => if p x then drop_while p xs' else xs
  end.

(** [str.strip()] (CPython's [do_strip]): skip the whitespace at the left
    end, then the whitespace at the right end, and keep what lies between. *)
Definition str_strip (s : string) : string :=
  String.string_of_list_ascii
    (rev (drop_while py_isspace (rev (drop_while py_isspace (String.list_ascii_of_string s))))).

Definition is_ascii_char (c : ascii) : bool := (Ascii.nat_of_ascii c <? 128)%nat.

Definition is_ascii_str (s : string) : bool := forallb is_ascii_char (String.list_ascii_of_string s).

Definition ascii_upper (c : ascii) : ascii :=
  let n := Ascii.nat_of_ascii c in
  if ((97 <=? n) && (n <=? 122))%nat then Ascii.ascii_of_nat (n - 32)%nat else c.

Definition ascii_lower (c : ascii) : ascii :=
  let n := Ascii.nat_of_ascii c in
  if ((65 <=? n) && (n <=? 90))%nat then Ascii.ascii_of_nat (n + 32)%nat else c.

Fixpoint str_map (f : ascii -> ascii) (s : string) : string :=
  match s with
  | EmptyString => EmptyString
  | String c s' => String (f c) (str_map f s')
  end.

(** [str.capitalize()] on ASCII text: the first character in title case
    (upper case, for an ASCII letter), the others in lower case. *)
Definition str_capitalize (s : string) : string :=
  match s with
  | EmptyString => EmptyString
  | String c s' => String (ascii_upper c) (str_map ascii_lower s')
  end.

(** [str.strip] and [str.capitalize] called as functions: the argument
    must be a [str].  Case mapping beyond ASCII is not modelled and is
    reported as a library outcome. *)
Definition py_strip (v : val) : M val :=
  match v with
  | VStr s => mret (VStr (str_strip s))
  | _ => raise (TypeError "descriptor 'strip' for 'str' objects doesn't apply")
  end.

Definition py_capitalize (v : val) : M val :=
  match v with
  | VStr s =>
      if is_ascii_str s then mret (VStr (str_capitalize s))
      else raise (LibError "str.capitalize beyond ASCII")
  | _ => raise (TypeError "descriptor 'capitalize' for 'str' objects doesn't apply")
  end.

Definition clean_ops : list (val -> M val) := [py_strip; py_capitalize].

(** [for f in clean_ops: s = f(s)] *)
Fixpoint apply_ops (fs : list (val -> M val)) (s : val) : M val :=
  match fs with
  | [] => mret s
  | f :: fs' => s' ← f s; apply_ops fs' s'
  end.

(** [result.append(s)] *)
Definition list_append (l : loc) (v : val) : M unit :=
  xs ← read_list l;
  write l (OList (xs ++ [v])).

(** The cell, with [names] the list object being cleaned; it evaluates to
    [result].  The loop body never writes [names]. *)
Definition clean_names (names : loc) : M val :=
  result ← alloc (OList []);
  xs ← read_list names;
  mfor xs (fun s => s' ← apply_ops clean_ops s; list_append result s') ;;
  mret (VRef result).

(* ------------------------------------------------------------------ *)
(** ** [sorted(iterable, key=...)] (Python builtin, used in Part_04.ipynb)

    [sorted] copies the iterable into a new list, computes each key once
    and sorts the new list stably, comparing keys with [<] only.  The
    stable order is the one of an insertion sort that places an element
    before the first already sorted element whose key is greater.
    [<] is modelled on ints, strings (by character code) and tuples
    (lexicographically, elements compared with [==] then [<]); [None]
    and mixed types raise [TypeError].  Ordering two list objects never
    arises from the keys of this notebook and is reported as a [TypeError]
    here. *)
Fixpoint py_lt (a b : val) : outcome bool :=
  match a, b with
  | VInt x, VInt y => Normal (Z.ltb x y)
  | VStr x, VStr y => Normal (String.ltb x y)
  | VTuple xs, VTuple ys =>
      (fix go (xs ys : list val) : outcome bool :=
         match xs, ys with
         | [], [] => Normal false
         | [], _ :: _ => Normal true
         | _ :: _, [] => Normal false
         | x :: xs', y :: ys' => if val_eqb x y then go xs' ys' else py_lt x y
         end) xs ys
  | _, _ => Exc (TypeError "'<' not supported between instances")
  end.

Fixpoint insert_by_key (kx : val * val) (sorted : list (val * val))
    : outcome (list (val * val)) :=
  match sorted with
  | [] => Normal [kx]
  | ky :: rest =>
      match py_lt kx.1 ky.1 with
      | Exc e => Exc e
      | Normal true => Normal (kx :: sorted)
      | Normal false =>
          match insert_by_key kx rest with
          | Normal r => Normal (ky :: r)
          | Exc e => Exc e
          end
      end
  end.

Fixpoint sort_by_key (acc : list (val * val)) (kxs : list (val * val))
    : outcome (list (val * val)) :=
  match kxs with
  | [] => Normal acc
  | kx :: kxs' =>
      match insert_by_key kx acc with
      | Normal acc' => sort_by_key acc' kxs'
      | Exc e => Exc e
      end
  end.

Fixpoint mmap {A B} (f : A -> M B) (xs : list A) : M (list B) :=
  match xs with
  | [] => mret []
  | x :: xs' => y ← f x; ys ← mmap f xs'; mret (y :: ys)
  end.

Definition py_sorted (iterable : loc) (key : val -> M val) : M val :=
  xs ← read_list iterable;
  newlist ← alloc (OList xs);
  ks ← mmap key xs;
  match sort_by_key [] (zip ks xs) with
  | Normal kxs => write newlist (OList (map snd kxs)) ;; mret (VRef newlist)
  | Exc e => raise e
  end.

(** [lambda x: len(x)]; a string's length counts its characters (the
    notebook's strings are ASCII). *)
Definition key_len (x : val) : M val :=
  match x with
  | VStr s => mret (VInt (Z.of_nat (String.length s)))
  | VTuple xs => mret (VInt (Z.of_nat (length xs)))
  | VRef l =>
      o ← read l;
      match o with
      | OList ys => mret (VInt (Z.of_nat (length ys)))
      | ODict kvs => mret (VInt (Z.of_nat (length kvs)))
      end
  | _ => raise (TypeError "object has no len()")
  end.

(** [lambda s: s[2]] *)
Definition key_third (s : val) : M val :=
  match s with
  | VTuple xs =>
      match xs !! 2%nat with
      | Some v => mret v
      | None => raise (IndexError "tuple index out of range")
      end
  | VStr str =>
      if decide (2 < String.length str)%nat then mret (VStr (String.substring 2 1 str))
      else raise (IndexError "string index out of range")
  | VRef l =>
      o ← read l;
      match o with
      | OList _ => list_getitem l 2
      | ODict _ => dict_getitem l (VInt 2)
      end
  | _ => raise (TypeError "object is not subscriptable")
  end.

(** [sorted(strings)]: without [key], the items themselves are compared. *)
Definition no_key (x : val) : M val := mret x.

(* ------------------------------------------------------------------ *)
(** ** Module [fibo] (written by [%%writefile fibo.py] in Part_04.ipynb)

<<
def fib(n):    # print Fibonacci series up to n
    a, b = 0, 1
    print(b, end=" ")
    while (n >= 2):
        f = a + b
        print(f, end=" ")
        a, b = b, f
        n -= 1

def fib2(n):   # return Fibonacci series up to n
    a, b = 0, 1
    result = [1]
    while (n >= 2):
        f = a + b
        result.append(f)
        a, b = b, f
        n -= 1
    return result
>>
    [fib] is modelled by the numbers it prints, in order.  The [while]
    loop decrements [n] by one per iteration, so [Z.to_nat n] iterations
    always suffice: the fuel runs out only once [n < 2]. *)
Fixpoint fib_loop (fuel : nat) (n a b : Z) : list Z :=
  match fuel with
  | O => []
  | S fuel' =>
      if 2 <=? n then
        let f := a + b in
        f :: fib_loop fuel' (n - 1) b f
      else []
  end.

Definition fib (n : Z) : list Z :=
  let '(a, b) := (0, 1) in
  b :: fib_loop (Z.to_nat n) n a b.

Fixpoint fib2_loop (fuel : nat) (n a b : Z) (result : list Z) : list Z :=
  match fuel with
  | O => result
  | S fuel' =>
      if 2 <=? n then
        let f := a + b in
        fib2_loop fuel' (n - 1) b f (result ++ [f])
      else result
  end.

Definition fib2 (n : Z) : list Z :=
  let '(a, b) := (0, 1) in
  fib2_loop (Z.to_nat n) n a b [1].

(* ------------------------------------------------------------------ *)
(** ** External effects of the notebooks' statements

    Each code cell is a list of statements, classified by their effect
    outside the Python heap: reading a CSV file with [pd.read_csv], the
    cell magic [%%writefile], the shell escape [!cat], importing the local
    module [fibo] (which reads [fibo.py] from the working directory),
    calls into installed libraries with no file effect, and showing a
    result or a plot in the notebook. *)
Inductive io_event :=
  | ReadFile (path : string)
  | WriteFile (path : string)
  | Display.

Inductive stmt :=
  | ReadCsv (path : string)
  | WriteFileMagic (path : string)
  | ShellCat (path : string)
  | ImportLocal (module : string)
  | LibCall
  | Show.

Definition io_of (st : stmt) : list io_event :=
  match st with
  | ReadCsv p => [ReadFile p]
  | WriteFileMagic p => [WriteFile p]
  | ShellCat p => [ReadFile p]
  | ImportLocal m => [ReadFile (String.append m ".py")]
  | LibCall => []
  | Show => [Display]
  end.

(** Part_04.ipynb, code cells in order. *)
Definition part04_cells : list (list stmt) :=
  [ [LibCall]                                   (* def get_counts *)
  ; [LibCall; Show]                             (* get_counts(a) *)
  ; [LibCall]                                   (* def double_list *)
  ; [LibCall; Show]                             (* double_list(s); s *)
  ; [LibCall; Show]                             (* double_list(s); s *)
  ; [LibCall; Show]                             (* clean_ops loop; result *)
  ; [Show]                                      (* sorted(strings) *)
  ; [Show]                                      (* sorted(strings, key=len) *)
  ; [Show]                                      (* sorted(student_tuples, ...) *)
  ; [WriteFileMagic "fibo.py"; Show]            (* %%writefile fibo.py *)
  ; [ShellCat "fibo.py"; Show]                  (* !cat fibo.py *)
  ; [ImportLocal "fibo"; Show]                  (* import fibo; fibo.fib(5) *)
  ; [LibCall; Show]                             (* %timeit *)
  ; [LibCall; Show] ].                          (* %%timeit *)

(** The ensemble-methods notebook, code cells in order. *)
Definition ensemble_cells : list (list stmt) :=
  [ [LibCall]                                   (* imports, %matplotlib inline *)
  ; [ReadCsv "../Datasets/forest-cover-type.csv"; Show]
  ; [Show]                                      (* forest.head() *)
  ; [LibCall; Show]                             (* sns.countplot *)
  ; [LibCall; Show]                             (* forest.isna().sum() *)
  ; [LibCall]                                   (* X, y, train_test_split *)
  ; [LibCall; Show]                             (* fit, predict, accuracy *)
  ; [Show]                                      (* node_count, max_depth *)
  ; [LibCall; Show]                             (* cross_val_score, gini *)
  ; [LibCall; Show]                             (* cross_val_score, entropy *)
  ; [LibCall]                                   (* learning_curve *)
  ; [LibCall; Show]                             (* plot: Decision tree *)
  ; [Show]                                      (* rounded CV means *)
  ; [LibCall]                                   (* validation_curve, depth *)
  ; [LibCall; Show]                             (* plot *)
  ; [LibCall]                                   (* bagging, 1 tree *)
  ; [LibCall; Show]                             (* plot *)
  ; [Show]
  ; [LibCall]                                   (* bagging, 10 trees *)
  ; [LibCall; Show]                             (* plot *)
  ; [Show]
  ; [LibCall]                                   (* random forest *)
  ; [LibCall; Show]                             (* plot *)
  ; [Show]
  ; [LibCall]                                   (* validation_curve, depth *)
  ; [LibCall; Show]                             (* plot *)
  ; [LibCall]                                   (* bagging vs random forest *)
  ; [LibCall; Show]                             (* plot *)
  ; [ReadCsv "../Datasets/MNIST/mnist_test.csv"; Show]
  ; [Show]                                      (* mnist.shape *)
  ; [LibCall]                                   (* X, y, train_test_split *)
  ; [LibCall; Show]                             (* digit images *)
  ; [LibCall; Show]                             (* fit, predict, accuracy *)
  ; [Show]                                      (* node_count, max_depth *)
  ; [LibCall]                                   (* learning_curve *)
  ; [LibCall; Show]                             (* plot *)
  ; [LibCall]                                   (* bagging *)
  ; [LibCall; Show]                             (* plot *)
  ; [LibCall]                                   (* random forest *)
  ; [LibCall; Show]                             (* plot *)
  ; [LibCall]                                   (* validation_curve, depth *)
  ; [LibCall; Show]                             (* plot *)
  ; [LibCall]                                   (* bagging vs random forest *)
  ; [LibCall; Show] ].                          (* plot *)

Definition notebook_io (cells : list (list stmt)) : list io_event :=
  concat (map (fun c => concat (map io_of c)) cells).

Definition repo_io : list io_event :=
  notebook_io ensemble_cells ++ notebook_io part04_cells.

(* ------------------------------------------------------------------ *)
(** ** The first cells of the ensemble notebook, with the library calls
    as parameters

<<
forest = pd.read_csv('../Datasets/forest-cover-type.csv')
forest.shape
>>
    No statement of the notebook is wrapped in [try]: whatever the library
    call raises ends the cell. *)
Definition load_forest (read_csv : string -> M val) (shape : val -> M val) : M val :=
  forest ← read_csv "../Datasets/forest-cover-type.csv";
  shape forest.

(* ------------------------------------------------------------------ *)
(** ** [train_test_split(X, y, test_size=0.2, random_state=42)]

    Modelled from scikit-learn's documented behaviour: with [train_size]
    unset, [n_test = ceil(test_size * n_samples)] and
    [n_train = n_samples - n_test]; the rows are permuted by a generator
    seeded with [random_state] and the first [n_test] indices of the
    permutation form the test set, the next [n_train] the training set.
    [perm seed n] is that generator's permutation of [0 .. n-1]; it is a
    function of the seed.  [test_size] is the fraction [num / den]
    (0.2 = 1/5; the float product [0.2 * 15120] is exactly [3024.0]). *)
Definition split_sizes (n num den : nat) : nat * nat :=
  let n_test := Nat.div (n * num + (den - 1)) den in
  (n - n_test, n_test)%nat.

Definition train_test_split (perm : Z -> nat -> list nat)
    (n num den : nat) (random_state : Z) : list nat * list nat :=
  let '(n_train, n_test) := split_sizes n num den in
  let p := perm random_state n in
  (take n_train (drop n_test p), take n_test p).

(** Number of rows of [forest-cover-type.csv], as stated by the notebook. *)
Definition forest_rows : nat := 15120.

(* ------------------------------------------------------------------ *)
(** ** The notebook's example data *)

(** [a = ['a', 'c', 'd', 'a', 'c', 'a', 'd', 'b']] *)
Definition a_list : list val :=
  [VStr "a"; VStr "c"; VStr "d"; VStr "a"; VStr "c"; VStr "a"; VStr "d"; VStr "b"].

(** [s = [1, 3, 5, 7]] *)
Definition s_ints : list val := [VInt 1; VInt 3; VInt 5; VInt 7].

(** [strings = ['foo', 'bar', 'baz', 'f', 'fo', 'b', 'ba']] *)
Definition strings_list : list val :=
  [VStr "foo"; VStr "bar"; VStr "baz"; VStr "f"; VStr "fo"; VStr "b"; VStr "ba"].

(** [student_tuples] *)
Definition student_tuples : list val :=
  [VTuple [VStr "john"; VStr "M"; VInt 15];
   VTuple [VStr "jane"; VStr "F"; VInt 12];
   VTuple [VStr "dave"; VStr "M"; VInt 10]].

(** [names = ['Alfred  ', 'carl', '  Danny    ', 'lucy   ']] *)
Definition names_list : list val :=
  [VStr "Alfred  "; VStr "carl"; VStr "  Danny    "; VStr "lucy   "].

(** A heap holding one list object, at location 1. *)
Definition heap_of (xs : list val) : heap := {[ 1%positive := OList xs ]}.

(* ------------------------------------------------------------------ *)
(** ** Reading the spec's words *)

(** [x] occurs in [seen] under Python [==]. *)
Definition py_in (x : val) (seen : list val) : bool := existsb (fun y => val_eqb y x) seen.

(** The distinct elements of a list, each at its first occurrence. *)
Fixpoint first_occurrences_from (seen : list val) (xs : list val) : list val :=
  match xs with
  | [] => []
  | x :: xs' =>
      if py_in x seen then first_occurrences_from seen xs'
      else x :: first_occurrences_from (x :: seen) xs'
  end.

Definition first_occurrences (xs : list val) : list val := first_occurrences_from [] xs.

Definition occurrences (xs : list val) (x : val) : nat :=
  length (List.filter (fun y => val_eqb y x) xs).

(** One [(element, count)] pair per distinct element, in order of first
    occurrence, as the tuples [get_counts] returns. *)
Definition expected_counts (xs : list val) : list val :=
  map (fun x => VTuple [x; VInt (Z.of_nat (occurrences xs x))]) (first_occurrences xs).

(** The contents of the dict [counts] once [get_counts] has consumed the
    prefix [p] of its argument. *)
Definition counts_after (p : list val) : list (val * val) :=
  map (fun x => (x, VInt (Z.of_nat (occurrences p x)))) (first_occurrences p).

(** The integer key of a (key, item) pair during [sorted]. *)
Definition key_int (kv : val * val) : Z :=
  match kv.1 with VInt z => z | _ => 0 end.

Definition is_int (v : val) : bool :=
  match v with VInt _ => true | _ => false end.

(** Frame condition: [m] changes no object other than the one at [d]. *)
Definition writes_only {A} (d : loc) (m : M A) : Prop :=
  forall (h : heap) (l : loc), l <> d -> (m h).1 !! l = h !! l.

(** The spec's "multiplied by 2": numeric doubling and string
    self-concatenation. *)
Definition doubled (v : val) : val :=
  match v with
  | VInt z => VInt (2 * z)
  | VStr s => VStr (String.append s s)
  | _ => v
  end.

Definition is_scalar (v : val) : bool :=
  match v with
  | VInt _ | VStr _ => true
  | _ => false
  end.

(** The Fibonacci numbers, [fibonacci 1 = fibonacci 2 = 1]. *)
Fixpoint fibonacci (n : nat) : Z :=
  match n with
  | O => 0
  | S O => 1
  | S ((S m) as m') => fibonacci m + fibonacci m'
  end.

Definition str_len (v : val) : Z :=
  match v with
  | VStr s => Z.of_nat (String.length s)
  | _ => 0
  end.

Definition third_int (v : val) : Z :=
  match v with
  | VTuple [_; _; VInt z] => z
  | _ => 0
  end.

Definition is_str (v : val) : bool :=
  match v with VStr _ => true | _ => false end.

Definition is_int_triple (v : val) : bool :=
  match v with VTuple [_; _; VInt _] => true | _ => false end.

(** The text of a string value. *)
Definition str_of (v : val) : string :=
  match v with VStr s => s | _ => "" end.

(** The count of an [(element, count)] tuple. *)
Definition count_of (v : val) : Z :=
  match v with VTuple [_; VInt c] => c | _ => 0 end.

Definition sum_counts (ys : list val) : Z := fold_right (fun y acc => count_of y + acc) 0 ys.

(** What the cleaning loop makes of one name: [s.strip().capitalize()]. *)
Definition clean_val (v : val) : val := VStr (str_capitalize (str_strip (str_of v))).

(** A string value of ASCII text. *)
Definition is_ascii_val (v : val) : bool :=
  match v with VStr s => is_ascii_str s | _ => false end.

(** Whitespace at neither end of a string: its first and its last
    character are not whitespace. *)
Definition trimmed (s : string) : bool :=
  let cs := String.list_ascii_of_string s in
  match cs, rev cs with
  | c :: _, d :: _ => negb (py_isspace c) && negb (py_isspace d)
  | _, _ => true
  end.

(* ================================================================== *)
(** * Lemmas *)

(** ** Python equality *)

Lemma val_eqb_eq (x y : val) : val_eqb x y = true <-> x = y.
Proof.
  revert y. induction x as [z|s| |xs IH|l] using val_ind; intros [z'|s'| |ys|l'];
    simpl; try (split; congruence).
  - rewrite Z.eqb_eq. split; congruence.
  - rewrite String.eqb_eq. split; congruence.
  - revert ys. induction IH as [|a Ha xs' _ IHxs]; intros [|b ys]; simpl;
      try (split; congruence).
    rewrite andb_true_iff, Ha, IHxs. split; [intros [-> [= ->]]; done|].
    intros [= -> ->]. done.
  - rewrite Pos.eqb_eq. split; congruence.
Qed.

Lemma val_eqb_refl (x : val) : val_eqb x x = true.
Proof. by apply val_eqb_eq. Qed.

Lemma val_eqb_sym (x y : val) : val_eqb x y = val_eqb y x.
Proof.
  destruct (val_eqb y x) eqn:E.
  - apply val_eqb_eq in E. subst. apply val_eqb_refl.
  - destruct (val_eqb x y) eqn:E'; [|done].
    apply val_eqb_eq in E'. subst. by rewrite val_eqb_refl in E.
Qed.

Lemma val_eqb_false (x y : val) : val_eqb x y = false <-> x <> y.
Proof.
  rewrite <- val_eqb_eq. destruct (val_eqb x y); split; congruence.
Qed.

Global Instance val_eq_dec : EqDecision val.
Proof.
  intros x y. destruct (val_eqb x y) eqn:E.
  - left. by apply val_eqb_eq.
  - right. by apply val_eqb_false.
Defined.

Lemma py_in_In (x : val) (l : list val) : py_in x l = true <-> In x l.
Proof.
  unfold py_in. rewrite existsb_exists. split.
  - intros [y [Hy Heq]]. apply val_eqb_eq in Heq. by subst.
  - intros Hx. exists x. split; [done|apply val_eqb_refl].
Qed.

Lemma py_in_app (x : val) (l1 l2 : list val) : py_in x (l1 ++ l2) = py_in x l1 || py_in x l2.
Proof. unfold py_in. apply existsb_app. Qed.

(** ** Distinct elements and occurrence counts *)

Lemma first_occurrences_from_snoc (seen p : list val) (x : val) :
  first_occurrences_from seen (p ++ [x]) =
  first_occurrences_from seen p ++ (if py_in x (seen ++ p) then [] else [x]).
Proof.
  revert seen. induction p as [|y p IH]; intros seen; simpl.
  - rewrite app_nil_r. by destruct (py_in x seen).
  - destruct (py_in y seen) eqn:Hy.
    + rewrite IH. f_equal.
      rewrite !py_in_app. simpl. destruct (val_eqb y x) eqn:E; [|done].
      apply val_eqb_eq in E. subst. by rewrite Hy.
    + rewrite IH. simpl. f_equal. f_equal.
      rewrite !py_in_app. simpl. rewrite val_eqb_sym.
      destruct (py_in x seen), (val_eqb x y), (py_in x p); done.
Qed.

Lemma first_occurrences_from_In (seen p : list val) (y : val) :
  In y (first_occurrences_from seen p) <-> In y p /\ ~ In y seen.
Proof.
  revert seen. induction p as [|x p IH]; intros seen; simpl.
  - tauto.
  - destruct (py_in x seen) eqn:Hx.
    + apply py_in_In in Hx. rewrite IH. split; [tauto|].
      intros [[-> | Hp] Hs]; [contradiction|tauto].
    + simpl. rewrite IH. simpl.
      assert (~ In x seen) by (rewrite <- py_in_In; congruence).
      split.
      * intros [-> | [Hp Hs]]; [tauto|]. split; [tauto|]. tauto.
      * intros [[-> | Hp] Hs]; [tauto|].
        destruct (decide (x = y)) as [->|Hne]; [tauto|]. right. split; [done|].
        intros [-> | ?]; [done|tauto].
Qed.

Lemma first_occurrences_In (p : list val) (y : val) :
  In y (first_occurrences p) <-> In y p.
Proof. unfold first_occurrences. rewrite first_occurrences_from_In. simpl. tauto. Qed.

Lemma first_occurrences_from_NoDup (seen p : list val) : NoDup (first_occurrences_from seen p).
Proof.
  revert seen. induction p as [|x p IH]; intros seen; simpl.
  - constructor.
  - destruct (py_in x seen); [done|]. constructor; [|done].
    intros Hin. apply list_elem_of_In, first_occurrences_from_In in Hin.
    simpl in Hin. tauto.
Qed.

Lemma occurrences_snoc (p : list val) (x y : val) :
  occurrences (p ++ [x]) y = (occurrences p y + if val_eqb x y then 1 else 0)%nat.
Proof.
  unfold occurrences. rewrite List.filter_app, length_app. simpl.
  by destruct (val_eqb x y).
Qed.

Lemma occurrences_not_In (p : list val) (x : val) : ~ In x p -> occurrences p x = 0%nat.
Proof.
  intros Hx. unfold occurrences. induction p as [|y p IH]; simpl; [done|].
  destruct (val_eqb y x) eqn:E.
  - apply val_eqb_eq in E. subst. simpl in Hx. tauto.
  - apply IH. simpl in Hx. tauto.
Qed.

(** ** The insertion-ordered dict *)

Lemma assoc_find_map (f : val -> val) (L : list val) (x : val) :
  assoc_find x (map (fun y => (y, f y)) L) = if py_in x L then Some (f x) else None.
Proof.
  induction L as [|y L IH]; simpl; [done|].
  unfold py_in in *. simpl. destruct (val_eqb y x) eqn:E; simpl.
  - apply val_eqb_eq in E. by subst.
  - done.
Qed.

Lemma assoc_set_map_In (f : val -> val) (L : list val) (x v : val) :
  NoDup L -> In x L ->
  assoc_set x v (map (fun y => (y, f y)) L) =
  map (fun y => (y, if val_eqb y x then v else f y)) L.
Proof.
  induction L as [|y L IH]; intros Hnd Hin; simpl; [done|].
  apply NoDup_cons in Hnd as [Hy Hnd].
  destruct (val_eqb y x) eqn:E.
  - apply val_eqb_eq in E. subst. f_equal. apply map_ext_in. intros z Hz.
    destruct (val_eqb z x) eqn:E'; [|done].
    apply val_eqb_eq in E'. subst. exfalso. apply Hy. by apply list_elem_of_In.
  - f_equal. apply IH; [done|]. destruct Hin as [->|?]; [|done].
    by rewrite val_eqb_refl in E.
Qed.

Lemma assoc_set_map_not_In (f : val -> val) (L : list val) (x v : val) :
  ~ In x L ->
  assoc_set x v (map (fun y => (y, f y)) L) = map (fun y => (y, f y)) L ++ [(x, v)].
Proof.
  induction L as [|y L IH]; intros Hin; simpl; [done|].
  destruct (val_eqb y x) eqn:E.
  - apply val_eqb_eq in E. subst. simpl in Hin. tauto.
  - f_equal. apply IH. simpl in Hin. tauto.
Qed.

Lemma counts_after_nil : counts_after [] = [].
Proof. reflexivity. Qed.

Lemma counts_after_find (p : list val) (x : val) :
  assoc_find x (counts_after p) =
  if py_in x p then Some (VInt (Z.of_nat (occurrences p x))) else None.
Proof.
  unfold counts_after. rewrite assoc_find_map.
  assert (py_in x (first_occurrences p) = py_in x p) as ->; [|done].
  apply eq_true_iff_eq. rewrite !py_in_In. apply first_occurrences_In.
Qed.

Lemma counts_after_snoc_In (p : list val) (x : val) :
  In x p ->
  assoc_set x (VInt (Z.of_nat (occurrences p x) + 1)) (counts_after p) =
  counts_after (p ++ [x]).
Proof.
  intros Hx. unfold counts_after, first_occurrences.
  rewrite first_occurrences_from_snoc. simpl.
  assert (py_in x p = true) as -> by by apply py_in_In. rewrite app_nil_r.
  rewrite assoc_set_map_In.
  - apply map_ext. intros y. rewrite occurrences_snoc, (val_eqb_sym x y).
    destruct (val_eqb y x) eqn:E.
    + apply val_eqb_eq in E. subst. do 2 f_equal. lia.
    + by rewrite Nat.add_0_r.
  - apply first_occurrences_from_NoDup.
  - by apply (first_occurrences_In p x).
Qed.

Lemma counts_after_snoc_not_In (p : list val) (x : val) :
  ~ In x p ->
  assoc_set x (VInt 1) (counts_after p) = counts_after (p ++ [x]).
Proof.
  intros Hx. unfold counts_after, first_occurrences.
  rewrite first_occurrences_from_snoc. simpl.
  assert (py_in x p = false) as ->.
  { apply not_true_iff_false. by rewrite py_in_In. }
  rewrite assoc_set_map_not_In.
  - rewrite map_app. simpl. f_equal.
    + apply map_ext_in. intros y Hy.
      apply (first_occurrences_In p y) in Hy.
      rewrite occurrences_snoc. destruct (val_eqb x y) eqn:E.
      * apply val_eqb_eq in E. subst. tauto.
      * by rewrite Nat.add_0_r.
    + rewrite occurrences_snoc, val_eqb_refl, occurrences_not_In; done.
  - by rewrite (first_occurrences_In p x).
Qed.

(** ** The heap operations *)

Ltac unfold_M :=
  unfold mbind, M_bind, mret, M_ret, raise, read, write, alloc in *.

Lemma count_step_hashable (d : loc) (p : list val) (x : val) (h : heap) :
  h !! d = Some (ODict (counts_after p)) -> hashable x = true ->
  count_step d x h = (<[d := ODict (counts_after (p ++ [x]))]> h, Normal tt).
Proof.
  intros Hd Hx.
  unfold count_step, dict_contains, dict_getitem, dict_setitem, py_hash_check,
    read_dict, py_add. unfold_M. rewrite Hx, Hd, counts_after_find.
  destruct (py_in x p) eqn:E.
  - rewrite Hd, counts_after_find, E, Hd. simpl.
    rewrite counts_after_snoc_In; [done|]. by apply py_in_In.
  - rewrite Hd, counts_after_snoc_not_In; [done|].
    rewrite <- py_in_In. congruence.
Qed.

Lemma count_step_unhashable (d : loc) (x : val) (h : heap) :
  hashable x = false ->
  count_step d x h = (h, Exc (TypeError "unhashable type")).
Proof.
  intros Hx. unfold count_step, dict_contains, py_hash_check. unfold_M. by rewrite Hx.
Qed.

Lemma count_loop_hashable (d : loc) (rest p : list val) (h : heap) :
  h !! d = Some (ODict (counts_after p)) -> forallb hashable rest = true ->
  mfor rest (count_step d) h = (<[d := ODict (counts_after (p ++ rest))]> h, Normal tt).
Proof.
  revert p h. induction rest as [|x rest IH]; intros p h Hd Hall; simpl.
  - rewrite app_nil_r, insert_id; [|done]. reflexivity.
  - apply andb_true_iff in Hall as [Hx Hall].
    unfold mbind, M_bind. rewrite (count_step_hashable d p); [|done|done].
    rewrite (IH (p ++ [x])).
    + by rewrite insert_insert_eq, <- app_assoc.
    + apply lookup_insert_eq.
    + done.
Qed.

Lemma count_loop_exc (d : loc) (rest p : list val) (h : heap) (e : exn) :
  h !! d = Some (ODict (counts_after p)) ->
  (mfor rest (count_step d) h).2 = Exc e ->
  e = TypeError "unhashable type" /\ Exists (fun x => hashable x = false) rest.
Proof.
  revert p h. induction rest as [|x rest IH]; intros p h Hd Hexc; simpl in Hexc.
  - unfold mret, M_ret in Hexc. simpl in Hexc. congruence.
  - unfold mbind, M_bind in Hexc. destruct (hashable x) eqn:Hx.
    + rewrite (count_step_hashable d p) in Hexc; [|done|done].
      apply (IH (p ++ [x])) in Hexc as [? ?]; [|apply lookup_insert_eq]. split; [done|]. by right.
    + rewrite count_step_unhashable in Hexc; [|done]. simpl in Hexc.
      split; [congruence|]. by left.
Qed.

Lemma get_counts_ok (h : heap) (s : loc) (xs : list val) :
  h !! s = Some (OList xs) -> forallb hashable xs = true ->
  exists r h', get_counts s h = (h', Normal (VRef r)) /\
    h' !! r = Some (OList (expected_counts xs)) /\ h' !! s = h !! s.
Proof.
  intros Hs Hall. unfold get_counts, read_list, read_dict. unfold_M. simpl.
  set (d := fresh (dom h)).
  assert (Hds : d <> s).
  { intros Heq. apply (is_fresh (dom h)). fold d. rewrite Heq. apply elem_of_dom. by eexists. }
  rewrite lookup_insert_ne; [|done]. rewrite Hs. simpl.
  rewrite (count_loop_hashable d xs []); [|by rewrite lookup_insert_eq|done].
  rewrite lookup_insert_eq. simpl.
  set (h2 := <[d:=ODict (counts_after ([] ++ xs))]> (<[d:=ODict []]> h)).
  set (r := fresh (dom h2)).
  assert (Hs2 : h2 !! s = Some (OList xs)).
  { unfold h2. rewrite !lookup_insert_ne; done. }
  assert (Hrs : r <> s).
  { intros Heq. apply (is_fresh (dom h2)). fold r. rewrite Heq. apply elem_of_dom. by eexists. }
  exists r, (<[r := OList (map (fun kv : val * val => VTuple [kv.1; kv.2]) (counts_after ([] ++ xs)))]> h2).
  split; [reflexivity|]. split.
  - rewrite lookup_insert_eq. simpl. unfold expected_counts, counts_after. by rewrite map_map.
  - by rewrite lookup_insert_ne.
Qed.

Lemma writes_only_ret {A} (d : loc) (a : A) : writes_only d (mret a).
Proof. intros h l _. reflexivity. Qed.

Lemma writes_only_raise {A} (d : loc) (e : exn) : writes_only d (raise (A:=A) e).
Proof. intros h l _. reflexivity. Qed.

Lemma writes_only_read (d l0 : loc) : writes_only d (read l0).
Proof. intros h l _. unfold read. by destruct (h !! l0). Qed.

Lemma writes_only_write (d : loc) (o : obj) : writes_only d (write d o).
Proof. intros h l Hl. unfold write. simpl. by rewrite lookup_insert_ne. Qed.

Lemma writes_only_bind {A B} (d : loc) (m : M A) (f : A -> M B) :
  writes_only d m -> (forall a, writes_only d (f a)) -> writes_only d (m ≫= f).
Proof.
  intros Hm Hf h l Hl. unfold mbind, M_bind.
  specialize (Hm h l Hl). destruct (m h) as [h1 [a|e]]; simpl in *.
  - by rewrite Hf.
  - done.
Qed.

Create HintDb frame.
#[local] Hint Resolve writes_only_ret writes_only_raise writes_only_read
  writes_only_write writes_only_bind : frame.

Ltac frame_auto :=
  repeat match goal with
  | |- writes_only _ (_ ≫= _) => apply writes_only_bind; [|intros ?]
  | |- writes_only _ (match ?x with _ => _ end) => destruct x
  | |- writes_only _ (if ?b then _ else _) => destruct b
  end; auto with frame.

Lemma writes_only_count_step (d : loc) (x : val) : writes_only d (count_step d x).
Proof.
  unfold count_step, dict_contains, dict_getitem, dict_setitem, py_hash_check,
    read_dict, py_add. frame_auto.
Qed.

Lemma writes_only_mfor {A} (d : loc) (xs : list A) (body : A -> M unit) :
  (forall x, writes_only d (body x)) -> writes_only d (mfor xs body).
Proof.
  intros Hb. induction xs as [|x xs IH]; simpl; [apply writes_only_ret|].
  apply writes_only_bind; auto.
Qed.

(** [get_counts] leaves every object that exists before the call as it was. *)
Lemma get_counts_frame (h : heap) (s l : loc) :
  is_Some (h !! l) -> (get_counts s h).1 !! l = h !! l.
Proof.
  intros Hl. unfold get_counts, read_list, read_dict. unfold_M. simpl.
  set (d := fresh (dom h)).
  assert (Hdl : l <> d).
  { intros ->. apply (is_fresh (dom h)). by apply elem_of_dom. }
  set (h1 := <[d := ODict []]> h).
  assert (Hl1 : h1 !! l = h !! l) by (unfold h1; by rewrite lookup_insert_ne).
  destruct (h1 !! s) as [[xs|kvs]|]; simpl; [|done|done].
  pose proof (writes_only_mfor d xs (count_step d) (writes_only_count_step d) h1 l Hdl) as Hm.
  destruct (mfor xs (count_step d) h1) as [h2 [u|e]]; simpl in *; [|congruence].
  destruct (h2 !! d) as [[ys|kvs]|]; simpl; try congruence.
  rewrite lookup_insert_ne; [congruence|].
  intros Heq. apply (is_fresh (dom h2)). rewrite Heq. apply elem_of_dom.
  rewrite Hm, Hl1. done.
Qed.

(** ** [double_list] *)

Lemma str_append_nil_r (s : string) : String.append s "" = s.
Proof.
  induction s as [|c s IH]; [done|].
  change (String c (String.append s "") = String c s). by rewrite IH.
Qed.

Lemma py_imul_scalar (x : val) (h : heap) :
  is_scalar x = true -> py_imul x 2 h = (h, Normal (doubled x)).
Proof.
  destruct x as [z|s| | |]; simpl; try discriminate; intros _.
  - unfold mret, M_ret. by rewrite Z.mul_comm.
  - unfold mret, M_ret. simpl. by rewrite str_append_nil_r.
Qed.

Lemma doubled_prefix_step (xs : list val) (k : nat) (x : val) :
  xs !! k = Some x ->
  <[k := doubled x]> (map doubled (take k xs) ++ drop k xs) =
  map doubled (take (S k) xs) ++ drop (S k) xs.
Proof.
  intros Hx. rewrite (take_S_r xs k x Hx), (drop_S xs x k Hx), map_app.
  assert (Hk : length (map doubled (take k xs)) = k).
  { rewrite length_map, length_take. apply lookup_lt_Some in Hx. lia. }
  rewrite <- Hk at 1. rewrite <- (Nat.add_0_r (length _)), insert_app_r.
  simpl. by rewrite <- app_assoc.
Qed.

Lemma double_loop (l : loc) (xs : list val) (m k : nat) (h : heap) :
  forallb is_scalar xs = true -> (k + m)%nat = length xs ->
  h !! l = Some (OList (map doubled (take k xs) ++ drop k xs)) ->
  mfor (seq k m) (fun pos =>
    v ← list_getitem l pos; v' ← py_imul v 2; list_setitem l pos v') h =
  (<[l := OList (map doubled xs)]> h, Normal tt).
Proof.
  intros Hall. revert k h. induction m as [|m IH]; intros k h Hkm Hl; simpl.
  - rewrite Nat.add_0_r in Hkm. subst k.
    rewrite take_ge, drop_ge, app_nil_r in Hl by lia.
    rewrite insert_id; done.
  - assert (Hk : (k < length xs)%nat) by lia.
    destruct (lookup_lt_is_Some_2 xs k Hk) as [x Hx].
    assert (Hsc : is_scalar x = true).
    { apply forallb_forall with (x := x) in Hall; [done|].
      by apply list_elem_of_In, list_elem_of_lookup_2 with k. }
    assert (Hcur : (map doubled (take k xs) ++ drop k xs) !! k = Some x).
    { rewrite lookup_app_r; rewrite length_map, length_take, Nat.min_l by lia;
        [|lia]. by rewrite Nat.sub_diag, lookup_drop, Nat.add_0_r. }
    assert (Hlen : (k < length (map doubled (take k xs) ++ drop k xs))%nat).
    { rewrite length_app, length_map, length_take, length_drop. lia. }
    unfold list_getitem, list_setitem, read_list. unfold_M. simpl.
    rewrite Hl. simpl. rewrite Hcur. simpl. rewrite py_imul_scalar by done. simpl.
    rewrite Hl. simpl. rewrite decide_True by done. simpl.
    rewrite doubled_prefix_step by done.
    rewrite (IH (S k)); [|lia|apply lookup_insert_eq].
    by rewrite insert_insert_eq.
Qed.

Lemma double_list_scalars (h : heap) (l : loc) (xs : list val) :
  h !! l = Some (OList xs) -> forallb is_scalar xs = true ->
  double_list l h = (<[l := OList (map doubled xs)]> h, Normal VNone).
Proof.
  intros Hl Hall. unfold double_list, read_list. unfold_M. simpl. rewrite Hl. simpl.
  rewrite (double_loop l xs (length xs) 0); [done|done|done|].
  by rewrite Hl.
Qed.

(** ** [sorted] with integer keys *)

Section SortInt.

Let R (a b : val * val) : Prop := key_int a <= key_int b.

Lemma insert_by_key_int (kx : val * val) (sorted : list (val * val)) :
  is_int kx.1 = true -> Forall (fun kv => is_int kv.1 = true) sorted ->
  StronglySorted R sorted ->
  exists r, insert_by_key kx sorted = Normal r /\
    Permutation r (kx :: sorted) /\ StronglySorted R r.
Proof.
  intros Hkx. induction sorted as [|ky rest IH]; intros Hall Hs; simpl.
  - exists [kx]. split; [done|]. split; [done|]. repeat constructor.
  - apply Forall_cons in Hall as [Hky Hall]. apply StronglySorted_inv in Hs as [Hs Hrest].
    destruct kx as [[zx| | | |] x]; try discriminate.
    destruct ky as [[zy| | | |] y]; try discriminate. simpl.
    destruct (zx <? zy) eqn:Hlt.
    + exists ((VInt zx, x) :: (VInt zy, y) :: rest). split; [done|]. split; [done|].
      apply Z.ltb_lt in Hlt. constructor; [by constructor|].
      constructor; [unfold R, key_int; simpl; lia|].
      eapply Forall_impl; [exact Hrest|]. unfold R, key_int. simpl. intros. lia.
    + apply Z.ltb_ge in Hlt.
      destruct (IH Hall Hs) as [r' [Hins [Hperm Hsr]]].
      rewrite Hins. exists ((VInt zy, y) :: r'). split; [done|]. split.
      * rewrite Hperm. apply perm_swap.
      * constructor; [done|]. apply List.Forall_forall. intros kv Hkv.
        apply (Permutation_in _ Hperm) in Hkv as [<- | Hkv].
        -- unfold R, key_int. simpl. lia.
        -- by apply (proj1 (List.Forall_forall _ _) Hrest).
Qed.

Lemma sort_by_key_int (kxs acc : list (val * val)) :
  Forall (fun kv => is_int kv.1 = true) acc ->
  Forall (fun kv => is_int kv.1 = true) kxs ->
  StronglySorted R acc ->
  exists r, sort_by_key acc kxs = Normal r /\
    Permutation r (acc ++ kxs) /\ StronglySorted R r.
Proof.
  revert acc. induction kxs as [|kx kxs IH]; intros acc Hacc Hall Hs; simpl.
  - exists acc. rewrite app_nil_r. done.
  - apply Forall_cons in Hall as [Hkx Hall].
    destruct (insert_by_key_int kx acc Hkx Hacc Hs) as [acc' [Hins [Hp Hs']]].
    rewrite Hins.
    assert (Hacc' : Forall (fun kv => is_int kv.1 = true) acc').
    { apply List.Forall_forall. intros kv Hkv. apply (Permutation_in _ Hp) in Hkv as [<- | Hkv];
        [done|by apply (proj1 (List.Forall_forall _ _) Hacc)]. }
    destruct (IH acc' Hacc' Hall Hs') as [r [Hr [Hpr Hsr]]].
    exists r. split; [done|]. split; [|done].
    rewrite Hpr, Hp. simpl. apply Permutation_middle.
Qed.

End SortInt.

Lemma mmap_pure_int_keys (key : val -> M val) (g : val -> Z) (xs : list val) (h : heap) :
  (forall x, In x xs -> forall h', key x h' = (h', Normal (VInt (g x)))) ->
  mmap key xs h = (h, Normal (map (fun x => VInt (g x)) xs)).
Proof.
  induction xs as [|x xs IH]; intros Hk; simpl; [done|].
  unfold mbind, M_bind. rewrite Hk by (by left). rewrite IH; [done|].
  intros y Hy. apply Hk. by right.
Qed.

Lemma zip_map_self {A B} (f : A -> B) (xs : list A) :
  zip (map f xs) xs = map (fun x => (f x, x)) xs.
Proof. induction xs as [|x xs IH]; simpl; [done|by rewrite IH]. Qed.

Lemma strongly_sorted_map_snd (g : val -> Z) (r : list (val * val)) :
  Forall (fun kv => kv.1 = VInt (g kv.2)) r ->
  StronglySorted (fun a b => key_int a <= key_int b) r ->
  StronglySorted (fun a b => g a <= g b) (map snd r).
Proof.
  induction r as [|kv r IH]; intros Hall Hs; simpl; [constructor|].
  apply Forall_cons in Hall as [Hkv Hall]. apply StronglySorted_inv in Hs as [Hs Hf].
  constructor; [by apply IH|]. apply List.Forall_forall. intros y Hy.
  apply in_map_iff in Hy as [kv' [<- Hkv']].
  pose proof (proj1 (List.Forall_forall _ _) Hf kv' Hkv') as Hle.
  pose proof (proj1 (List.Forall_forall _ _) Hall kv' Hkv') as Hkv'1.
  unfold key_int in Hle. rewrite Hkv, Hkv'1 in Hle. done.
Qed.

(** [sorted(xs, key=k)] when [k] returns an int for every item without
    touching the heap. *)
Lemma py_sorted_int_keys (key : val -> M val) (g : val -> Z) (h : heap) (l : loc)
    (xs : list val) :
  h !! l = Some (OList xs) ->
  (forall x, In x xs -> forall h', key x h' = (h', Normal (VInt (g x)))) ->
  exists r ys, py_sorted l key h = (<[r := OList ys]> h, Normal (VRef r)) /\
    h !! r = None /\ Permutation ys xs /\ Sorted (fun a b => g a <= g b) ys.
Proof.
  intros Hl Hk. unfold py_sorted, read_list. unfold_M. simpl. rewrite Hl. simpl.
  set (r := fresh (dom h)).
  rewrite (mmap_pure_int_keys key g) by done. rewrite zip_map_self.
  destruct (sort_by_key_int (map (fun x => (VInt (g x), x)) xs) [])
    as [kxs [Hsort [Hp Hs]]].
  { constructor. }
  { apply List.Forall_forall. intros kv Hkv. apply in_map_iff in Hkv as [x [<- _]]. done. }
  { constructor. }
  rewrite Hsort. simpl.
  exists r, (map snd kxs). split; [by rewrite insert_insert_eq|]. split.
  { apply not_elem_of_dom. apply is_fresh. }
  assert (Hall : Forall (fun kv => kv.1 = VInt (g kv.2)) kxs).
  { apply List.Forall_forall. intros kv Hkv. apply (Permutation_in _ Hp) in Hkv.
    simpl in Hkv. apply in_map_iff in Hkv as [x [<- _]]. done. }
  split.
  - rewrite Hp. simpl. rewrite map_map. simpl. by rewrite map_id.
  - apply StronglySorted_Sorted. by apply strongly_sorted_map_snd.
Qed.

Lemma key_len_str (x : val) (h : heap) :
  is_str x = true -> key_len x h = (h, Normal (VInt (str_len x))).
Proof. destruct x; simpl; try discriminate. done. Qed.

Lemma key_third_int_triple (x : val) (h : heap) :
  is_int_triple x = true -> key_third x h = (h, Normal (VInt (third_int x))).
Proof.
  destruct x as [| | |vs|]; simpl; try discriminate.
  destruct vs as [|a [|b [|[z| | | |] [|]]]]; simpl; try discriminate. done.
Qed.

(** ** [fib] and [fib2] *)

Lemma fib_loop_fibonacci (fuel : nat) (n : Z) (k : nat) :
  (Z.to_nat (n - 1) <= fuel)%nat ->
  fib_loop fuel n (fibonacci k) (fibonacci (S k)) =
  map fibonacci (seq (S (S k)) (Z.to_nat (n - 1))).
Proof.
  revert n k. induction fuel as [|fuel IH]; intros n k Hf; cbn [fib_loop].
  - assert (Z.to_nat (n - 1) = 0%nat) as -> by lia. done.
  - destruct (2 <=? n) eqn:Hn.
    + apply Z.leb_le in Hn.
      replace (Z.to_nat (n - 1)) with (S (Z.to_nat (n - 1 - 1))) by lia.
      cbn [seq map]. change (fibonacci k + fibonacci (S k)) with (fibonacci (S (S k))).
      rewrite (IH (n - 1) (S k)) by lia. done.
    + apply Z.leb_gt in Hn. assert (Z.to_nat (n - 1) = 0%nat) as -> by lia. done.
Qed.

Lemma fib2_loop_app (fuel : nat) (n a b : Z) (result : list Z) :
  fib2_loop fuel n a b result = result ++ fib_loop fuel n a b.
Proof.
  revert n a b result. induction fuel as [|fuel IH]; intros n a b result; simpl.
  - by rewrite app_nil_r.
  - destruct (2 <=? n); [|by rewrite app_nil_r].
    rewrite IH. by rewrite <- app_assoc.
Qed.

Lemma fib_series (n : Z) :
  fib n = if 2 <=? n then map fibonacci (seq 1 (Z.to_nat n)) else [1].
Proof.
  unfold fib. change 0 with (fibonacci 0). change 1 with (fibonacci 1) at 2.
  rewrite fib_loop_fibonacci by lia.
  destruct (2 <=? n) eqn:Hn.
  - apply Z.leb_le in Hn. replace (Z.to_nat n) with (S (Z.to_nat (n - 1))) by lia. done.
  - apply Z.leb_gt in Hn. assert (Z.to_nat (n - 1) = 0%nat) as -> by lia. done.
Qed.

Lemma fib2_fib (n : Z) : fib2 n = fib n.
Proof. unfold fib2, fib. by rewrite fib2_loop_app. Qed.

(** ** [get_counts] on unhashable items *)

Lemma count_loop_unhashable (d : loc) (rest p : list val) (h : heap) :
  h !! d = Some (ODict (counts_after p)) -> forallb hashable rest = false ->
  (mfor rest (count_step d) h).2 = Exc (TypeError "unhashable type").
Proof.
  revert p h. induction rest as [|x rest IH]; intros p h Hd Hall; simpl in *; [done|].
  unfold mbind, M_bind. destruct (hashable x) eqn:Hx; simpl in Hall.
  - rewrite (count_step_hashable d p) by done. apply (IH (p ++ [x])); [|done].
    apply lookup_insert_eq.
  - by rewrite count_step_unhashable.
Qed.

Lemma get_counts_unhashable (h : heap) (s : loc) (xs : list val) :
  h !! s = Some (OList xs) -> forallb hashable xs = false ->
  (get_counts s h).2 = Exc (TypeError "unhashable type").
Proof.
  intros Hs Hall. unfold get_counts, read_list. unfold_M. simpl.
  set (d := fresh (dom h)).
  assert (Hds : d <> s).
  { intros Heq. apply (is_fresh (dom h)). fold d. rewrite Heq. apply elem_of_dom. by eexists. }
  rewrite lookup_insert_ne; [|done]. rewrite Hs. simpl.
  pose proof (count_loop_unhashable d xs [] (<[d := ODict []]> h)) as Hl.
  rewrite lookup_insert_eq in Hl. specialize (Hl eq_refl Hall).
  destruct (mfor xs (count_step d) (<[d:=ODict []]> h)) as [h2 [u|e]]; simpl in *;
    congruence.
Qed.

Lemma forallb_false_Exists (f : val -> bool) (xs : list val) :
  forallb f xs = false <-> Exists (fun x => f x = false) xs.
Proof.
  induction xs as [|x xs IH]; simpl.
  - split; [discriminate|intros H; inversion H].
  - rewrite andb_false_iff, IH. split.
    + intros [H|H]; [by left|by right].
    + intros H. inversion H; subst; tauto.
Qed.

(** ** [train_test_split] *)

Lemma train_test_split_partition (perm : Z -> nat -> list nat) (n : nat) (seed : Z) :
  (forall sd m, Permutation (perm sd m) (seq 0 m)) ->
  length (train_test_split perm n 1 5 seed).2 = (split_sizes n 1 5).2 /\
  length (train_test_split perm n 1 5 seed).1 = (split_sizes n 1 5).1 /\
  Permutation ((train_test_split perm n 1 5 seed).1 ++ (train_test_split perm n 1 5 seed).2)
    (seq 0 n).
Proof.
  intros Hperm. unfold train_test_split, split_sizes.
  set (n_test := Nat.div (n * 1 + (5 - 1)) 5). cbn [fst snd].
  assert (Hle : (n_test <= n)%nat).
  { unfold n_test. destruct n as [|n']; [done|].
    apply Nat.Div0.div_le_upper_bound. lia. }
  pose proof (Permutation_length (Hperm seed n)) as Hlen. rewrite length_seq in Hlen.
  split; [rewrite length_take; lia|]. split.
  - rewrite length_take, length_drop. lia.
  - rewrite take_ge by (rewrite length_drop; lia).
    rewrite Permutation_app_comm, take_drop. apply Hperm.
Qed.

(* ================================================================== *)
(** * Claims *)

(** ** C1 *)



(** ** C2 *)




(** ** C3 *)

Lemma lookup_map_doubled (xs : list val) (i : nat) (x : val) :
  xs !! i = Some x -> map doubled xs !! i = Some (doubled x).
Proof.
  revert i. induction xs as [|y xs IH]; intros [|i]; simpl; try discriminate.
  - congruence.
  - apply IH.
Qed.




(** ** C4 *)

(** [sorted] with an int-valued key, seen from the caller: a new list,
    the argument untouched. *)
Lemma py_sorted_int_keys_new (key : val -> M val) (g : val -> Z) (h : heap) (l : loc)
    (xs : list val) :
  h !! l = Some (OList xs) ->
  (forall x, In x xs -> forall h', key x h' = (h', Normal (VInt (g x)))) ->
  exists r ys h', py_sorted l key h = (h', Normal (VRef r)) /\
    h' !! r = Some (OList ys) /\ h' !! l = Some (OList xs) /\
    Permutation ys xs /\ Sorted (fun a b => g a <= g b) ys.
Proof.
  intros Hl Hk. destruct (py_sorted_int_keys key g h l xs Hl Hk)
    as [r [ys [Hs [Hr [Hp Hsort]]]]].
  exists r, ys, (<[r := OList ys]> h). split; [done|]. split; [apply lookup_insert_eq|].
  split; [|done]. rewrite lookup_insert_ne; [done|]. congruence.
Qed.




(** ** C5 *)

(** C5 (counterexample): the [%%writefile fibo.py] cell of the functions
    notebook writes a file. *)
Lemma notebook_writes_fibo : In (WriteFile "fibo.py") repo_io.
Proof. vm_compute. tauto. Qed.

(** C5 (amended): the external effects of the two notebooks are exactly:
    reading the two CSV files at their fixed relative paths, writing
    [fibo.py] (the [%%writefile] cell), reading [fibo.py] back ([!cat] and
    [import fibo]), and showing outputs on the interactive display. *)
Theorem notebook_io_exact (e : io_event) :
  In e repo_io <->
  In e [ReadFile "../Datasets/forest-cover-type.csv";
        ReadFile "../Datasets/MNIST/mnist_test.csv";
        WriteFile "fibo.py"; ReadFile "fibo.py"; Display].
Proof.
  split; intros H.
  - vm_compute in H. vm_compute. intuition.
  - vm_compute in H. vm_compute.
    destruct H as [<-|[<-|[<-|[<-|[<-|[]]]]]]; tauto.
Qed.

(** ** C6 *)



(** ** C8 *)

(** C8: [get_counts] leaves its argument as it was: after the call the
    list object at [s] holds exactly the items it held before. *)
Theorem get_counts_preserves_arg (h : heap) (s : loc) (xs : list val) :
  h !! s = Some (OList xs) -> (get_counts s h).1 !! s = Some (OList xs).
Proof.
  intros Hs. rewrite get_counts_frame; [done|]. by eexists.
Qed.

Lemma get_counts_preserves_arg_witness :
  heap_of a_list !! 1%positive = Some (OList a_list) /\
  (get_counts 1%positive (heap_of a_list)).1 !! 1%positive = Some (OList a_list).
Proof.
  split; [reflexivity|].
  apply (get_counts_preserves_arg (heap_of a_list) 1%positive a_list). reflexivity.
Defined.

(** ** C9 *)

(** C9: for every integer [n], the numbers printed by [fib(n)] are the
    list returned by [fib2(n)]: the first [n] Fibonacci numbers
    [1, 1, 2, 3, 5, ...] when [n >= 2], and the single number [1] when
    [n < 2]. *)
Theorem fib_prints_fib2 (n : Z) :
  fib n = fib2 n /\
  fib2 n = if 2 <=? n then map fibonacci (seq 1 (Z.to_nat n)) else [1].
Proof. rewrite fib2_fib. split; [reflexivity|apply fib_series]. Qed.

(** ** C10 *)

(** C10: on the 15120 rows of the forest data, [test_size=0.2] gives a
    test set of 3024 rows (20%) and a training set of 12096 rows (80%),
    not the one third a 2/3-1/3 split would give; the two sets partition
    the rows; and the split depends only on the permutation drawn from
    [random_state=42], so two runs on the same data give the same
    partition. *)
Theorem forest_split_80_20 (perm : Z -> nat -> list nat) :
  (forall sd m, Permutation (perm sd m) (seq 0 m)) ->
  length (train_test_split perm forest_rows 1 5 42).2 = 3024%nat /\
  length (train_test_split perm forest_rows 1 5 42).1 = 12096%nat /\
  (5 * 3024 = forest_rows)%nat /\ (3 * 3024 <> forest_rows)%nat /\
  Permutation ((train_test_split perm forest_rows 1 5 42).1 ++
               (train_test_split perm forest_rows 1 5 42).2) (seq 0 forest_rows) /\
  (forall perm' : Z -> nat -> list nat, perm' 42 forest_rows = perm 42 forest_rows ->
     train_test_split perm' forest_rows 1 5 42 = train_test_split perm forest_rows 1 5 42).
Proof.
  intros Hperm.
  destruct (train_test_split_partition perm forest_rows 42 Hperm) as [Hte [Htr Hp]].
  assert (Hsz : split_sizes forest_rows 1 5 = (12096%nat, 3024%nat)) by (vm_compute; reflexivity).
  rewrite Hsz in Hte, Htr. simpl in Hte, Htr.
  split; [done|]. split; [done|].
  split; [vm_compute; reflexivity|]. split; [vm_compute; discriminate|].
  split; [done|].
  intros perm' Heq. unfold train_test_split. by rewrite Heq.
Qed.

Lemma forest_split_80_20_witness :
  (forall sd m, Permutation ((fun (_ : Z) (m' : nat) => seq 0 m') sd m) (seq 0 m)) /\
  length (train_test_split (fun _ m => seq 0 m) forest_rows 1 5 42).2 = 3024%nat /\
  length (train_test_split (fun _ m => seq 0 m) forest_rows 1 5 42).1 = 12096%nat /\
  (5 * 3024 = forest_rows)%nat /\ (3 * 3024 <> forest_rows)%nat /\
  Permutation ((train_test_split (fun _ m => seq 0 m) forest_rows 1 5 42).1 ++
               (train_test_split (fun _ m => seq 0 m) forest_rows 1 5 42).2)
              (seq 0 forest_rows) /\
  (forall perm' : Z -> nat -> list nat, perm' 42 forest_rows = seq 0 forest_rows ->
     train_test_split perm' forest_rows 1 5 42 =
     train_test_split (fun _ m => seq 0 m) forest_rows 1 5 42).
Proof.
  split; [intros sd m; reflexivity|].
  apply (forest_split_80_20 (fun _ m => seq 0 m)). intros sd m; reflexivity.
Defined.

(* ================================================================== *)
(** * Further properties of the notebook code *)
(** ** [str.strip] and [str.capitalize] *)

Definition strip_l (cs : list ascii) : list ascii :=
  rev (drop_while py_isspace (rev (drop_while py_isspace cs))).

Definition cap_l (cs : list ascii) : list ascii :=
  match cs with [] => [] | c :: cs' => ascii_upper c :: map ascii_lower cs' end.

Definition trimmed_l (cs : list ascii) : bool :=
  match cs, rev cs with
  | c :: _, d :: _ => negb (py_isspace c) && negb (py_isspace d)
  | _, _ => true
  end.

Lemma str_strip_chars (s : string) :
  String.list_ascii_of_string (str_strip s) = strip_l (String.list_ascii_of_string s).
Proof. unfold str_strip. apply String.list_ascii_of_string_of_list_ascii. Qed.

Lemma str_map_chars (f : ascii -> ascii) (s : string) :
  String.list_ascii_of_string (str_map f s) = map f (String.list_ascii_of_string s).
Proof. induction s as [|c s IH]; simpl; [done|by rewrite IH]. Qed.

Lemma str_capitalize_chars (s : string) :
  String.list_ascii_of_string (str_capitalize s) = cap_l (String.list_ascii_of_string s).
Proof. destruct s as [|c s]; simpl; [done|by rewrite str_map_chars]. Qed.

Lemma string_chars_inj (s t : string) :
  String.list_ascii_of_string s = String.list_ascii_of_string t -> s = t.
Proof.
  intros H. rewrite <- (String.string_of_list_ascii_of_string s), H.
  apply String.string_of_list_ascii_of_string.
Qed.

Lemma trimmed_chars (s : string) : trimmed s = trimmed_l (String.list_ascii_of_string s).
Proof. reflexivity. Qed.

(** Character facts, over all 256 characters. *)
Ltac all_chars :=
  match goal with c : ascii |- _ => destruct c as [[] [] [] [] [] [] [] []]; reflexivity end.

Lemma isspace_upper (c : ascii) : py_isspace (ascii_upper c) = py_isspace c.
Proof. all_chars. Qed.

Lemma isspace_lower (c : ascii) : py_isspace (ascii_lower c) = py_isspace c.
Proof. all_chars. Qed.

Lemma upper_upper (c : ascii) : ascii_upper (ascii_upper c) = ascii_upper c.
Proof. all_chars. Qed.

Lemma lower_lower (c : ascii) : ascii_lower (ascii_lower c) = ascii_lower c.
Proof. all_chars. Qed.

Lemma ascii_upper_ascii (c : ascii) : is_ascii_char (ascii_upper c) = is_ascii_char c.
Proof. all_chars. Qed.

Lemma ascii_lower_ascii (c : ascii) : is_ascii_char (ascii_lower c) = is_ascii_char c.
Proof. all_chars. Qed.

Lemma drop_while_split {A} (p : A -> bool) (xs : list A) :
  exists pre, xs = pre ++ drop_while p xs /\ Forall (fun x => p x = true) pre /\
    match drop_while p xs with [] => True | y :: _ => p y = false end.
Proof.
  induction xs as [|x xs [pre [Hxs [Hpre Hhd]]]]; simpl.
  - exists []. done.
  - destruct (p x) eqn:Hx.
    + exists (x :: pre). simpl. rewrite <- Hxs. split; [done|]. split; [by constructor|done].
    + exists []. simpl. done.
Qed.

Lemma drop_while_id {A} (p : A -> bool) (xs : list A) :
  match xs with [] => True | y :: _ => p y = false end -> drop_while p xs = xs.
Proof. destruct xs as [|x xs]; simpl; [done|]. by intros ->. Qed.

Lemma forallb_drop_while {A} (p q : A -> bool) (xs : list A) :
  forallb q xs = true -> forallb q (drop_while p xs) = true.
Proof.
  induction xs as [|x xs IH]; simpl; [done|]. rewrite andb_true_iff.
  intros [Hx Hxs]. destruct (p x); simpl; [by apply IH|]. by rewrite Hx, Hxs.
Qed.

Lemma forallb_rev {A} (q : A -> bool) (xs : list A) : forallb q (rev xs) = forallb q xs.
Proof.
  induction xs as [|x xs IH]; simpl; [done|].
  rewrite forallb_app, IH. simpl. by rewrite andb_true_r, andb_comm.
Qed.

Lemma strip_l_ascii (cs : list ascii) :
  forallb is_ascii_char cs = true -> forallb is_ascii_char (strip_l cs) = true.
Proof.
  intros H. unfold strip_l. rewrite forallb_rev.
  apply forallb_drop_while. rewrite forallb_rev. by apply forallb_drop_while.
Qed.

Lemma trimmed_l_strip_id (cs : list ascii) : trimmed_l cs = true -> strip_l cs = cs.
Proof.
  unfold trimmed_l, strip_l. destruct cs as [|c cs']; [done|].
  destruct (rev (c :: cs')) as [|d r] eqn:Hr.
  { apply (f_equal length) in Hr. rewrite length_rev in Hr. discriminate. }
  rewrite andb_true_iff, !negb_true_iff. intros [Hc Hd].
  rewrite (drop_while_id py_isspace (c :: cs')) by done.
  rewrite Hr, (drop_while_id py_isspace (d :: r)) by done.
  by rewrite <- Hr, rev_involutive.
Qed.

Lemma strip_l_trimmed (cs : list ascii) : trimmed_l (strip_l cs) = true.
Proof.
  unfold strip_l, trimmed_l.
  destruct (drop_while_split py_isspace cs) as [pre0 [_ [_ Ha]]].
  remember (drop_while py_isspace cs) as a eqn:Ea. clear Ea.
  destruct (drop_while_split py_isspace (rev a)) as [pre [Hra [_ Hb]]].
  remember (drop_while py_isspace (rev a)) as b eqn:Eb. clear Eb.
  destruct b as [|d b']; [done|].
  assert (Ha' : a = rev (d :: b') ++ rev pre).
  { rewrite <- rev_app_distr, <- Hra. by rewrite rev_involutive. }
  destruct (rev (d :: b')) as [|e rb] eqn:Heb; [done|].
  replace (rev (e :: rb)) with (d :: b') by (rewrite <- Heb; symmetry; apply rev_involutive).
  rewrite Ha' in Ha. simpl in Ha, Hb. by rewrite Ha, Hb.
Qed.

Lemma trimmed_l_map (cs : list ascii) :
  trimmed_l cs =
  match map py_isspace cs, rev (map py_isspace cs) with
  | b :: _, b' :: _ => negb b && negb b'
  | _, _ => true
  end.
Proof.
  unfold trimmed_l. rewrite <- map_rev.
  destruct cs as [|c cs']; [done|]. simpl map at 1.
  destruct (rev (c :: cs')) as [|d r]; reflexivity.
Qed.

Lemma map_isspace_cap (cs : list ascii) : map py_isspace (cap_l cs) = map py_isspace cs.
Proof.
  destruct cs as [|c cs]; simpl; [done|]. rewrite isspace_upper, map_map.
  f_equal. apply map_ext. apply isspace_lower.
Qed.

Lemma cap_l_idem (cs : list ascii) : cap_l (cap_l cs) = cap_l cs.
Proof.
  destruct cs as [|c cs]; simpl; [done|]. rewrite upper_upper, map_map.
  f_equal. apply map_ext. apply lower_lower.
Qed.

Lemma cap_l_ascii (cs : list ascii) :
  forallb is_ascii_char (cap_l cs) = forallb is_ascii_char cs.
Proof.
  destruct cs as [|c cs]; simpl; [done|]. rewrite ascii_upper_ascii. f_equal.
  induction cs as [|x cs IH]; simpl; [done|]. by rewrite ascii_lower_ascii, IH.
Qed.

Lemma str_strip_ascii (s : string) : is_ascii_str s = true -> is_ascii_str (str_strip s) = true.
Proof. unfold is_ascii_str. rewrite str_strip_chars. apply strip_l_ascii. Qed.

Lemma str_strip_trimmed (s : string) : trimmed (str_strip s) = true.
Proof. rewrite trimmed_chars, str_strip_chars. apply strip_l_trimmed. Qed.

Lemma str_strip_id (s : string) : trimmed s = true -> str_strip s = s.
Proof.
  rewrite trimmed_chars. intros H. apply string_chars_inj.
  rewrite str_strip_chars. by apply trimmed_l_strip_id.
Qed.

Lemma trimmed_capitalize (s : string) : trimmed (str_capitalize s) = trimmed s.
Proof.
  rewrite !trimmed_chars, str_capitalize_chars, !trimmed_l_map. by rewrite map_isspace_cap.
Qed.

Lemma str_capitalize_idem (s : string) : str_capitalize (str_capitalize s) = str_capitalize s.
Proof. apply string_chars_inj. rewrite !str_capitalize_chars. apply cap_l_idem. Qed.

Lemma str_capitalize_ascii (s : string) : is_ascii_str (str_capitalize s) = is_ascii_str s.
Proof. unfold is_ascii_str. rewrite str_capitalize_chars. apply cap_l_ascii. Qed.

Lemma apply_clean_ops (s : string) (h : heap) :
  is_ascii_str s = true ->
  apply_ops clean_ops (VStr s) h = (h, Normal (VStr (str_capitalize (str_strip s)))).
Proof.
  intros Hs. unfold clean_ops, apply_ops, py_strip, py_capitalize. unfold_M.
  by rewrite str_strip_ascii.
Qed.

Lemma mfor_app {A} (xs ys : list A) (body : A -> M unit) (h : heap) :
  mfor (xs ++ ys) body h =
  match mfor xs body h with
  | (h', Normal _) => mfor ys body h'
  | (h', Exc e) => (h', Exc e)
  end.
Proof.
  revert h. induction xs as [|x xs IH]; intros h; simpl; [done|].
  unfold mbind, M_bind. destruct (body x h) as [h1 [u|e]]; [|done].
  apply IH.
Qed.

Lemma clean_loop (r : loc) (xs acc : list val) (h : heap) :
  h !! r = Some (OList acc) -> Forall (fun v => is_ascii_val v = true) xs ->
  mfor xs (fun s => s' ← apply_ops clean_ops s; list_append r s') h =
  (<[r := OList (acc ++ map clean_val xs)]> h, Normal tt).
Proof.
  revert acc h. induction xs as [|x xs IH]; intros acc h Hr Hall; cbn [mfor].
  - rewrite app_nil_r, insert_id by done. done.
  - apply Forall_cons in Hall as [Hx Hall].
    destruct x as [|s| | |]; try discriminate. simpl in Hx.
    unfold mbind at 1, M_bind at 1. unfold mbind at 1, M_bind at 1.
    rewrite apply_clean_ops by done.
    unfold list_append, read_list. unfold_M. simpl. rewrite Hr. simpl.
    rewrite (IH (acc ++ [clean_val (VStr s)])); [|apply lookup_insert_eq|done].
    rewrite insert_insert_eq, <- app_assoc. done.
Qed.

Lemma clean_loop_fail (r : loc) (pre : list val) (v : val) (post acc : list val) (h : heap) :
  h !! r = Some (OList acc) -> Forall (fun v => is_ascii_val v = true) pre ->
  is_str v = false ->
  mfor (pre ++ v :: post) (fun s => s' ← apply_ops clean_ops s; list_append r s') h =
  (<[r := OList (acc ++ map clean_val pre)]> h,
   Exc (TypeError "descriptor 'strip' for 'str' objects doesn't apply")).
Proof.
  intros Hr Hpre Hv. rewrite mfor_app, (clean_loop r pre acc h Hr Hpre). simpl.
  unfold mbind at 1, M_bind at 1. unfold mbind at 1, M_bind at 1.
  destruct v as [z|s| |vs|l']; try discriminate; reflexivity.
Qed.

(** The cleaning cell on a list of ASCII strings: it returns a new list
    (a location unused before) holding, for each name in order,
    [name.strip().capitalize()]; no other object changes, so [names] keeps
    its items. *)
Theorem clean_names_result (h : heap) (l : loc) (xs : list val) :
  h !! l = Some (OList xs) -> Forall (fun v => is_ascii_val v = true) xs ->
  exists r, clean_names l h = (<[r := OList (map clean_val xs)]> h, Normal (VRef r)) /\
    h !! r = None.
Proof.
  intros Hl Hall. unfold clean_names, read_list. unfold_M. simpl.
  set (r := fresh (dom h)).
  assert (Hr : h !! r = None) by (apply not_elem_of_dom, is_fresh).
  rewrite lookup_insert_ne by congruence. rewrite Hl. simpl.
  rewrite (clean_loop r xs []); [|apply lookup_insert_eq|done]. simpl.
  exists r. by rewrite insert_insert_eq.
Qed.


(** A cleaned name has no whitespace at either end, and cleaning it
    again gives it back unchanged. *)
Theorem clean_ops_idempotent (s : string) (h : heap) :
  is_ascii_str s = true ->
  trimmed (str_capitalize (str_strip s)) = true /\
  apply_ops clean_ops (VStr (str_capitalize (str_strip s))) h =
    (h, Normal (VStr (str_capitalize (str_strip s)))).
Proof.
  intros Hs. assert (Ht : trimmed (str_capitalize (str_strip s)) = true).
  { rewrite trimmed_capitalize. apply str_strip_trimmed. }
  split; [done|]. rewrite apply_clean_ops.
  - by rewrite (str_strip_id _ Ht), str_capitalize_idem.
  - rewrite str_capitalize_ascii. by apply str_strip_ascii.
Qed.

(** [str.strip()] removes exactly the whitespace at both ends: the string
    is whitespace, then the result, then whitespace, and the result starts
    and ends with a non-whitespace character (or is empty). *)
Theorem str_strip_exact (s : string) :
  exists pre suf,
    String.list_ascii_of_string s = pre ++ String.list_ascii_of_string (str_strip s) ++ suf /\
    Forall (fun c => py_isspace c = true) pre /\ Forall (fun c => py_isspace c = true) suf /\
    trimmed (str_strip s) = true.
Proof.
  rewrite str_strip_chars. unfold strip_l.
  set (cs := String.list_ascii_of_string s).
  destruct (drop_while_split py_isspace cs) as [pre [Hcs [Hpre _]]].
  destruct (drop_while_split py_isspace (rev (drop_while py_isspace cs)))
    as [pre2 [Hra [Hpre2 _]]].
  exists pre, (rev pre2). split; [|split; [done|split; [by apply Forall_rev|]]].
  - rewrite Hcs at 1. f_equal. rewrite <- rev_app_distr, <- Hra. by rewrite rev_involutive.
  - apply str_strip_trimmed.
Qed.


(** ** [sorted] with keys from a strict total order *)

Section SortGen.
Context {K : Type} `{EqDecision K}.
Variable enc : K -> val.
Variable ltb : K -> K -> bool.
Hypothesis py_lt_enc : forall a b, py_lt (enc a) (enc b) = Normal (ltb a b).
Hypothesis ltb_trans : forall a b c, ltb a b = true -> ltb b c = true -> ltb a c = true.
Hypothesis ltb_irrefl : forall a, ltb a a = false.
Variable g : val -> K.

Let Pk (kv : val * val) : Prop := kv.1 = enc (g kv.2).
Let Rg (kv kv' : val * val) : Prop := ltb (g kv'.2) (g kv.2) = false.
Let fk (k : K) (kv : val * val) : bool := bool_decide (g kv.2 = k).

Lemma filter_fk_nil (k : K) (l : list (val * val)) :
  (forall kv, In kv l -> g kv.2 <> k) -> List.filter (fk k) l = [].
Proof.
  induction l as [|kv l IH]; intros Hl; simpl; [done|].
  unfold fk at 1. rewrite bool_decide_false by (apply Hl; by left).
  apply IH. intros kv' Hkv'. apply Hl. by right.
Qed.

Lemma insert_by_key_gen (x : val) (sorted : list (val * val)) :
  Forall Pk sorted -> StronglySorted Rg sorted ->
  exists r, insert_by_key (enc (g x), x) sorted = Normal r /\
    Permutation r ((enc (g x), x) :: sorted) /\ StronglySorted Rg r /\
    (forall k, List.filter (fk k) r = List.filter (fk k) sorted ++ List.filter (fk k) [(enc (g x), x)]).
Proof.
  induction sorted as [|[ky y] rest IH]; intros Hall Hs; simpl.
  - exists [(enc (g x), x)]. split; [done|]. split; [done|]. split; [repeat constructor|done].
  - apply Forall_cons in Hall as [Hky Hall]. unfold Pk in Hky. simpl in Hky. subst ky.
    apply StronglySorted_inv in Hs as [Hs Hrest].
    assert (Hrest' : forall kv, In kv rest -> ltb (g kv.2) (g y) = false).
    { intros kv Hkv. exact (proj1 (List.Forall_forall _ _) Hrest kv Hkv). }
    rewrite py_lt_enc. destruct (ltb (g x) (g y)) eqn:Hlt.
    + exists ((enc (g x), x) :: (enc (g y), y) :: rest). split; [done|]. split; [done|].
      split.
      * constructor; [by constructor|]. constructor.
        -- unfold Rg. simpl. destruct (ltb (g y) (g x)) eqn:E; [|done].
           pose proof (ltb_trans _ _ _ Hlt E) as E2. rewrite ltb_irrefl in E2. discriminate.
        -- apply List.Forall_forall. intros kv Hkv. unfold Rg. simpl.
           destruct (ltb (g kv.2) (g x)) eqn:E; [|done].
           pose proof (ltb_trans _ _ _ E Hlt) as E2. rewrite (Hrest' kv Hkv) in E2.
           discriminate.
      * intros k. cbn [List.filter].
        destruct (decide (g x = k)) as [<-|Hne].
        -- assert (Hx : fk (g x) (enc (g x), x) = true) by (unfold fk; by apply bool_decide_true).
           assert (Hy : fk (g x) (enc (g y), y) = false).
           { unfold fk. apply bool_decide_false. simpl. intros Heq.
             rewrite Heq, ltb_irrefl in Hlt. discriminate. }
           assert (Hr : List.filter (fk (g x)) rest = []).
           { apply filter_fk_nil. intros kv Hkv Heq. pose proof (Hrest' kv Hkv) as E.
             rewrite Heq, Hlt in E. discriminate. }
           rewrite Hx, Hy, Hr. done.
        -- assert (Hx : fk k (enc (g x), x) = false) by (unfold fk; by apply bool_decide_false).
           rewrite Hx, app_nil_r. done.
    + destruct (IH Hall Hs) as [r' [Hins [Hp [Hsr Hf]]]]. rewrite Hins.
      exists ((enc (g y), y) :: r'). split; [done|]. split.
      * rewrite Hp. apply perm_swap.
      * split.
        -- constructor; [done|]. apply List.Forall_forall. intros kv Hkv.
           apply (Permutation_in _ Hp) in Hkv as [<-|Hkv]; [done|].
           by apply Hrest'.
        -- intros k. simpl. rewrite Hf. by destruct (fk k (enc (g y), y)).
Qed.

Lemma sort_by_key_gen (xs : list val) (acc : list (val * val)) :
  Forall Pk acc -> StronglySorted Rg acc ->
  exists r, sort_by_key acc (map (fun x => (enc (g x), x)) xs) = Normal r /\
    Permutation r (acc ++ map (fun x => (enc (g x), x)) xs) /\ StronglySorted Rg r /\
    (forall k, List.filter (fk k) r =
               List.filter (fk k) acc ++ List.filter (fk k) (map (fun x => (enc (g x), x)) xs)).
Proof.
  revert acc. induction xs as [|x xs IH]; intros acc Hacc Hs; simpl.
  - exists acc. split; [done|]. split; [by rewrite app_nil_r|]. split; [done|].
    intros k. by rewrite app_nil_r.
  - destruct (insert_by_key_gen x acc Hacc Hs) as [acc' [Hins [Hp [Hs' Hf]]]].
    rewrite Hins.
    assert (Hacc' : Forall Pk acc').
    { apply List.Forall_forall. intros kv Hkv. apply (Permutation_in _ Hp) in Hkv as [<-|Hkv];
        [done|by apply (proj1 (List.Forall_forall _ _) Hacc)]. }
    destruct (IH acc' Hacc' Hs') as [r [Hr [Hpr [Hsr Hfr]]]].
    exists r. split; [done|]. split; [|split; [done|]].
    + rewrite Hpr, Hp. simpl. apply Permutation_middle.
    + intros k. rewrite Hfr, Hf, <- app_assoc. f_equal. simpl.
      by destruct (fk k (enc (g x), x)).
Qed.

Lemma mmap_pure_keys (key : val -> M val) (xs : list val) (h : heap) :
  (forall x, In x xs -> forall h', key x h' = (h', Normal (enc (g x)))) ->
  mmap key xs h = (h, Normal (map (fun x => enc (g x)) xs)).
Proof.
  induction xs as [|x xs IH]; intros Hk; simpl; [done|].
  unfold mbind, M_bind. rewrite Hk by (by left). rewrite IH; [done|].
  intros y Hy. apply Hk. by right.
Qed.

Lemma filter_map_snd (k : K) (r : list (val * val)) :
  List.filter (fun y => bool_decide (g y = k)) (map snd r) = map snd (List.filter (fk k) r).
Proof.
  induction r as [|kv r IH]; simpl; [done|]. unfold fk at 1.
  destruct (bool_decide (g kv.2 = k)); simpl; by rewrite IH.
Qed.

Lemma strongly_sorted_snd (r : list (val * val)) :
  StronglySorted Rg r -> StronglySorted (fun a b => ltb (g b) (g a) = false) (map snd r).
Proof.
  induction r as [|kv r IH]; intros Hs; simpl; [constructor|].
  apply StronglySorted_inv in Hs as [Hs Hf]. constructor; [by apply IH|].
  apply List.Forall_forall. intros y Hy. apply in_map_iff in Hy as [kv' [<- Hkv']].
  exact (proj1 (List.Forall_forall _ _) Hf kv' Hkv').
Qed.

(** [sorted(xs, key=k)] when [k] maps every item, without touching the
    heap, to the encoding of an element of [K]: a new list, ordered, a
    permutation, and stable (the items of one key keep their order). *)
Lemma py_sorted_gen (key : val -> M val) (h : heap) (l : loc) (xs : list val) :
  h !! l = Some (OList xs) ->
  (forall x, In x xs -> forall h', key x h' = (h', Normal (enc (g x)))) ->
  exists r ys, py_sorted l key h = (<[r := OList ys]> h, Normal (VRef r)) /\
    h !! r = None /\ Permutation ys xs /\
    Sorted (fun a b => ltb (g b) (g a) = false) ys /\
    (forall k, List.filter (fun y => bool_decide (g y = k)) ys =
               List.filter (fun y => bool_decide (g y = k)) xs).
Proof.
  intros Hl Hk. unfold py_sorted, read_list. unfold_M. simpl. rewrite Hl. simpl.
  set (r := fresh (dom h)).
  rewrite (mmap_pure_keys key) by done. rewrite zip_map_self.
  destruct (sort_by_key_gen xs []) as [kxs [Hsort [Hp [Hs Hf]]]]; [constructor|constructor|].
  rewrite Hsort. simpl.
  exists r, (map snd kxs). split; [by rewrite insert_insert_eq|]. split.
  { apply not_elem_of_dom. apply is_fresh. }
  split; [|split].
  - rewrite Hp. simpl. rewrite map_map. simpl. by rewrite map_id.
  - apply StronglySorted_Sorted. by apply strongly_sorted_snd.
  - intros k. rewrite filter_map_snd, Hf. simpl.
    clear. induction xs as [|x xs IH]; simpl; [done|]. unfold fk at 1. simpl.
    destruct (bool_decide (g x = k)); simpl; by rewrite IH.
Qed.

End SortGen.


(** ** String order *)

Lemma string_compare_refl (s : string) : String.compare s s = Eq.
Proof.
  induction s as [|c s IH]; simpl; [done|].
  unfold Ascii.compare. by rewrite N.compare_refl.
Qed.

Lemma string_compare_lt_trans (a b c : string) :
  String.compare a b = Lt -> String.compare b c = Lt -> String.compare a c = Lt.
Proof.
  revert b c. induction a as [|ca a IH]; intros [|cb b] [|cc c]; simpl; try discriminate; try done.
  unfold Ascii.compare.
  destruct (N.compare (N_of_ascii ca) (N_of_ascii cb)) eqn:E1; try discriminate;
  destruct (N.compare (N_of_ascii cb) (N_of_ascii cc)) eqn:E2; try discriminate;
  intros H1 H2.
  - apply N.compare_eq_iff in E1, E2. rewrite E1, E2, N.compare_refl. by apply IH with b.
  - apply N.compare_eq_iff in E1. by rewrite E1, E2.
  - apply N.compare_eq_iff in E2. by rewrite <- E2, E1.
  - rewrite N.compare_lt_iff in E1, E2.
    replace (N.compare (N_of_ascii ca) (N_of_ascii cc)) with Lt; [done|].
    symmetry. apply N.compare_lt_iff. lia.
Qed.

Lemma string_ltb_irrefl (s : string) : String.ltb s s = false.
Proof. unfold String.ltb. by rewrite string_compare_refl. Qed.

Lemma string_ltb_trans (a b c : string) :
  String.ltb a b = true -> String.ltb b c = true -> String.ltb a c = true.
Proof.
  unfold String.ltb.
  destruct (String.compare a b) eqn:E1; try discriminate.
  destruct (String.compare b c) eqn:E2; try discriminate.
  by rewrite (string_compare_lt_trans a b c E1 E2).
Qed.

Lemma py_lt_VStr (a b : string) : py_lt (VStr a) (VStr b) = Normal (String.ltb a b).
Proof. reflexivity. Qed.

Lemma py_lt_VInt (a b : Z) : py_lt (VInt a) (VInt b) = Normal (Z.ltb a b).
Proof. reflexivity. Qed.

Lemma Z_ltb_trans (a b c : Z) : (a <? b) = true -> (b <? c) = true -> (a <? c) = true.
Proof. rewrite !Z.ltb_lt. lia. Qed.

Lemma Z_ltb_irrefl (a : Z) : (a <? a) = false.
Proof. apply Z.ltb_irrefl. Qed.

Lemma no_key_str (x : val) (h : heap) :
  is_str x = true -> no_key x h = (h, Normal (VStr (str_of x))).
Proof. destruct x; simpl; try discriminate. done. Qed.

Lemma sort_by_key_app (acc : list (val * val)) (a b : list (val * val)) :
  sort_by_key acc (a ++ b) =
  match sort_by_key acc a with Normal acc' => sort_by_key acc' b | Exc e => Exc e end.
Proof.
  revert acc. induction a as [|kx a IH]; intros acc; simpl; [done|].
  destruct (insert_by_key kx acc); [apply IH|done].
Qed.

Lemma mmap_no_key (xs : list val) (h : heap) : mmap no_key xs h = (h, Normal xs).
Proof.
  induction xs as [|x xs IH]; cbn [mmap]; [done|].
  change ((no_key x ≫= (fun y => ys ← mmap no_key xs; mret (y :: ys))) h)
    with (match mmap no_key xs h with
          | (h', Normal ys) => (h', Normal (x :: ys))
          | (h', Exc e) => (h', Exc e)
          end).
  by rewrite IH.
Qed.

Lemma zip_self_strings (xs : list val) :
  forallb is_str xs = true -> zip xs xs = map (fun x => (VStr (str_of x), x)) xs.
Proof.
  induction xs as [|x xs IH]; simpl; [done|]. rewrite andb_true_iff. intros [Hx Hxs].
  destruct x; try discriminate. simpl. by rewrite IH.
Qed.

(** Comparing anything but a string with a string fails. *)
Lemma py_lt_not_str (v : val) (s : string) :
  is_str v = false -> py_lt v (VStr s) = Exc (TypeError "'<' not supported between instances").
Proof. destruct v; simpl; try discriminate; reflexivity. Qed.

(** [sorted(strings)] on a list of strings returns a new list that is a
    permutation of the input in which no string is followed by a smaller
    one (character-code lexicographic order); no existing object changes. *)
Theorem sorted_strings_lex (h : heap) (l : loc) (xs : list val) :
  h !! l = Some (OList xs) -> forallb is_str xs = true ->
  exists r ys, py_sorted l no_key h = (<[r := OList ys]> h, Normal (VRef r)) /\
    h !! r = None /\ Permutation ys xs /\
    Sorted (fun a b => String.ltb (str_of b) (str_of a) = false) ys.
Proof.
  intros Hl Hall.
  destruct (py_sorted_gen VStr String.ltb py_lt_VStr string_ltb_trans string_ltb_irrefl
              str_of no_key h l xs Hl) as [r [ys [Hs [Hr [Hp [Hsort _]]]]]].
  { intros x Hx h'. apply no_key_str. exact (proj1 (forallb_forall _ _) Hall x Hx). }
  by exists r, ys.
Qed.


(** [sorted] without key on a list starting with a string and holding a
    non-string later raises [TypeError]: the first non-string is compared
    with a string. *)
Theorem sorted_strings_mixed (h : heap) (l : loc) (s0 : string) (pre : list val) (v : val)
    (post : list val) :
  h !! l = Some (OList (VStr s0 :: pre ++ v :: post)) ->
  forallb is_str pre = true -> is_str v = false ->
  (py_sorted l no_key h).2 = Exc (TypeError "'<' not supported between instances").
Proof.
  intros Hl Hpre Hv. remember (VStr s0 :: pre ++ v :: post) as xs eqn:Exs.
  unfold py_sorted, read_list. unfold_M. simpl. rewrite Hl. simpl.
  rewrite mmap_no_key. simpl. subst xs.
  rewrite app_comm_cons.
  rewrite (zip_with_app pair (VStr s0 :: pre) (v :: post) (VStr s0 :: pre) (v :: post)) by done.
  rewrite sort_by_key_app, (zip_self_strings (VStr s0 :: pre)) by done.
  destruct (sort_by_key_gen VStr String.ltb py_lt_VStr string_ltb_trans string_ltb_irrefl
              str_of (VStr s0 :: pre) []) as [acc [Hsort [Hp [_ _]]]]; [constructor|constructor|].
  rewrite Hsort.
  destruct acc as [|[ks y] acc'].
  { apply Permutation_nil in Hp. discriminate. }
  assert (Hks : ks = VStr (str_of y)).
  { assert (Hin : In (ks, y) (map (fun x => (VStr (str_of x), x)) (VStr s0 :: pre))).
    { apply (Permutation_in _ Hp). by left. }
    apply in_map_iff in Hin as [x [Hx _]]. congruence. }
  subst ks. simpl. rewrite py_lt_not_str by done. reflexivity.
Qed.


(** ** Totals and freshness of [get_counts] *)

Lemma val_eqb_count_one (y : val) (d : list val) :
  NoDup d -> In y d -> list_sum (map (fun x => if val_eqb y x then 1%nat else 0%nat) d) = 1%nat.
Proof.
  induction d as [|z d IH]; intros Hnd Hy; [done|]. simpl.
  apply NoDup_cons in Hnd as [Hz Hnd].
  destruct (val_eqb y z) eqn:E.
  - apply val_eqb_eq in E. subst z.
    assert (H0 : list_sum (map (fun x => if val_eqb y x then 1%nat else 0%nat) d) = 0%nat).
    { clear IH Hy Hnd. induction d as [|w d IHd]; [done|]. simpl.
      destruct (val_eqb y w) eqn:E.
      - apply val_eqb_eq in E. subst w. exfalso. apply Hz. by left.
      - apply IHd. intros Hin. apply Hz. by right. }
    rewrite H0. done.
  - destruct Hy as [<-|Hy]; [by rewrite val_eqb_refl in E|]. simpl. by apply IH.
Qed.

Lemma sum_occurrences (xs d : list val) :
  NoDup d -> (forall x, In x xs -> In x d) ->
  list_sum (map (occurrences xs) d) = length xs.
Proof.
  intros Hnd. induction xs as [|y xs IH]; intros Hin.
  - simpl. unfold occurrences. simpl. clear. induction d; simpl; auto.
  - assert (Hocc : forall x, occurrences (y :: xs) x =
                     ((if val_eqb y x then 1 else 0) + occurrences xs x)%nat).
    { intros x. unfold occurrences. simpl. by destruct (val_eqb y x). }
    rewrite (map_ext _ _ Hocc).
    assert (Hsplit : forall (f g : val -> nat) (l : list val),
               list_sum (map (fun x => (f x + g x)%nat) l) =
               (list_sum (map f l) + list_sum (map g l))%nat).
    { intros f g l. induction l as [|a l IHl]; simpl; [done|]. rewrite IHl. lia. }
    rewrite Hsplit, val_eqb_count_one, IH; [done| |done|].
    + intros x Hx. apply Hin. by right.
    + apply Hin. by left.
Qed.

Lemma sum_counts_expected (xs : list val) :
  sum_counts (expected_counts xs) = Z.of_nat (length xs).
Proof.
  rewrite <- (sum_occurrences xs (first_occurrences xs)).
  - unfold sum_counts, expected_counts. generalize (first_occurrences xs) as d.
    induction d as [|x d IH]; simpl; [done|]. rewrite IH. lia.
  - apply first_occurrences_from_NoDup.
  - intros x Hx. by apply first_occurrences_In.
Qed.

(** The counts returned by [get_counts] add up to the length of its
    argument (for a list of hashable items). *)
Theorem get_counts_sum (h : heap) (s : loc) (xs : list val) :
  h !! s = Some (OList xs) -> forallb hashable xs = true ->
  exists r h' ys, get_counts s h = (h', Normal (VRef r)) /\ h' !! r = Some (OList ys) /\
    sum_counts ys = Z.of_nat (length xs).
Proof.
  intros Hs Hall. destruct (get_counts_ok h s xs Hs Hall) as [r [h' [Hg [Hr _]]]].
  exists r, h', (expected_counts xs). split; [done|]. split; [done|].
  apply sum_counts_expected.
Qed.

(** [get_counts] returns a list object that did not exist before the call,
    and every object that existed before is unchanged after it. *)
Theorem get_counts_fresh_frame (h : heap) (s : loc) (xs : list val) :
  h !! s = Some (OList xs) -> forallb hashable xs = true ->
  exists r h', get_counts s h = (h', Normal (VRef r)) /\ h !! r = None /\
    forall l, is_Some (h !! l) -> h' !! l = h !! l.
Proof.
  intros Hs Hall.
  destruct (get_counts_ok h s xs Hs Hall) as [r [h' [Hg [Hr _]]]].
  exists r, h'. split; [done|]. split.
  - unfold get_counts, read_list, read_dict in Hg. unfold_M. simpl in Hg.
    set (d := fresh (dom h)) in Hg.
    assert (Hds : d <> s).
    { intros Heq. apply (is_fresh (dom h)). fold d. rewrite Heq. apply elem_of_dom. by eexists. }
    rewrite lookup_insert_ne in Hg by done. rewrite Hs in Hg. simpl in Hg.
    rewrite (count_loop_hashable d xs []) in Hg; [|by rewrite lookup_insert_eq|done].
    rewrite lookup_insert_eq in Hg. simpl in Hg. injection Hg as _ <-.
    match goal with |- h !! fresh (dom ?h2) = None =>
      destruct (h !! fresh (dom h2)) eqn:E; [exfalso|done];
      apply (is_fresh (dom h2)), elem_of_dom;
      destruct (decide (fresh (dom h2) = d)) as [Heq|Hne];
      [rewrite Heq, lookup_insert_eq; by eexists
      |rewrite !lookup_insert_ne by done; by rewrite E]
    end.
  - intros l Hl. pose proof (get_counts_frame h s l Hl) as Hf. by rewrite Hg in Hf.
Qed.

(** ** [double_list] on lists holding [None] or references *)

Lemma double_loop_none (l : loc) (pre post : list val) (m k : nat) (h : heap) :
  forallb is_scalar pre = true -> (k <= length pre)%nat ->
  (k + m)%nat = length (pre ++ VNone :: post) ->
  h !! l = Some (OList (map doubled (take k (pre ++ VNone :: post)) ++ drop k (pre ++ VNone :: post))) ->
  mfor (seq k m) (fun pos =>
    v ← list_getitem l pos; v' ← py_imul v 2; list_setitem l pos v') h =
  (<[l := OList (map doubled pre ++ VNone :: post)]> h,
   Exc (TypeError "unsupported operand type(s) for *=")).
Proof.
  set (xs := pre ++ VNone :: post).
  intros Hall. revert k h. induction m as [|m IH]; intros k h Hk Hkm Hl.
  - exfalso. unfold xs in Hkm. rewrite length_app in Hkm. simpl in Hkm. lia.
  - cbn [seq mfor].
    assert (Hlen : (k < length (map doubled (take k xs) ++ drop k xs))%nat).
    { rewrite length_app, length_map, length_take, length_drop. lia. }
    destruct (decide (k = length pre)) as [->|Hne].
    + assert (Hcur : (map doubled (take (length pre) xs) ++ drop (length pre) xs) = map doubled pre ++ VNone :: post).
      { unfold xs. rewrite take_app_length, drop_app_length. done. }
      rewrite Hcur in Hl.
      assert (Hat : (map doubled pre ++ VNone :: post) !! length pre = Some VNone).
      { rewrite lookup_app_r; rewrite length_map; [|lia]. by rewrite Nat.sub_diag. }
      unfold list_getitem, read_list. unfold_M. simpl. rewrite Hl. simpl. rewrite Hat. simpl.
      by rewrite insert_id.
    + assert (Hk' : (k < length pre)%nat) by lia.
      destruct (lookup_lt_is_Some_2 pre k Hk') as [x Hx].
      assert (Hxs : xs !! k = Some x) by (unfold xs; by rewrite lookup_app_l).
      assert (Hsc : is_scalar x = true).
      { apply forallb_forall with (x := x) in Hall; [done|].
        by apply list_elem_of_In, list_elem_of_lookup_2 with k. }
      assert (Hcur : (map doubled (take k xs) ++ drop k xs) !! k = Some x).
      { rewrite lookup_app_r; rewrite length_map, length_take, Nat.min_l by lia;
          [|lia]. by rewrite Nat.sub_diag, lookup_drop, Nat.add_0_r. }
      unfold list_getitem, list_setitem, read_list. unfold_M. simpl.
      rewrite Hl. simpl. rewrite Hcur. simpl. rewrite py_imul_scalar by done. simpl.
      rewrite Hl. simpl. rewrite decide_True by done. simpl.
      rewrite doubled_prefix_step by done.
      rewrite (IH (S k)); [|lia|lia|apply lookup_insert_eq].
      by rewrite insert_insert_eq.
Qed.

(** [double_list] on a list whose first non-number, non-string item is
    [None]: the items before it are doubled in place, then [None *= 2]
    raises [TypeError], leaving [None] and the items after it as they were. *)
Theorem double_list_none (h : heap) (l : loc) (pre post : list val) :
  h !! l = Some (OList (pre ++ VNone :: post)) -> forallb is_scalar pre = true ->
  double_list l h =
  (<[l := OList (map doubled pre ++ VNone :: post)]> h,
   Exc (TypeError "unsupported operand type(s) for *=")).
Proof.
  intros Hl Hall. remember (pre ++ VNone :: post) as xs eqn:Exs.
  unfold double_list, read_list. unfold_M. simpl. rewrite Hl. simpl. subst xs.
  rewrite (double_loop_none l pre post (length (pre ++ VNone :: post)) 0);
    [done|done|lia|lia|]. rewrite Hl. reflexivity.
Qed.

Lemma concat_repeat_mul {A} (zs : list A) (a b : nat) :
  concat (repeat (concat (repeat zs a)) b) = concat (repeat zs (a * b)).
Proof.
  induction b as [|b IH]; simpl.
  - by rewrite Nat.mul_0_r.
  - rewrite IH, <- concat_app, <- repeat_app. f_equal. f_equal. lia.
Qed.

Lemma alias_loop (l m : loc) (k : nat) (n j : nat) (zs : list val) (h : heap) :
  m <> l -> h !! l = Some (OList (replicate k (VRef m))) -> h !! m = Some (OList zs) ->
  (j + n = k)%nat ->
  mfor (seq j n) (fun pos =>
    v ← list_getitem l pos; v' ← py_imul v 2; list_setitem l pos v') h =
  (<[m := OList (concat (repeat zs (2 ^ n)))]> h, Normal tt).
Proof.
  intros Hml. revert j zs h. induction n as [|n IH]; intros j zs h Hl Hm Hjk.
  - cbn [seq mfor]. simpl. rewrite app_nil_r. by rewrite insert_id.
  - cbn [seq mfor].
    assert (Hat : replicate k (VRef m) !! j = Some (VRef m)) by (apply lookup_replicate_2; lia).
    unfold list_getitem, list_setitem, read_list, py_imul. unfold_M. simpl.
    rewrite Hl. simpl. rewrite Hat. simpl. rewrite Hm. simpl.
    rewrite lookup_insert_ne by done. rewrite Hl. simpl.
    rewrite decide_True by (rewrite length_replicate; lia). simpl.
    rewrite list_insert_id by done.
    rewrite (insert_id (<[m:=_]> h) l); [|by rewrite lookup_insert_ne].
    rewrite (IH (S j) (zs ++ zs ++ [])); [|by rewrite lookup_insert_ne|apply lookup_insert_eq|lia].
    rewrite insert_insert_eq. f_equal. f_equal. f_equal.
    replace (2 ^ n + (2 ^ n + 0))%nat with (2 * 2 ^ n)%nat by lia.
    rewrite <- concat_repeat_mul. done.
Qed.

(** [double_list] on a list holding [k] references to one other list
    object: [*=] extends that object in place once per reference, so its
    contents are repeated [2^k] times, and the references are stored back
    unchanged. *)
Theorem double_list_aliased (h : heap) (l m : loc) (k : nat) (ys : list val) :
  m <> l -> h !! l = Some (OList (replicate k (VRef m))) -> h !! m = Some (OList ys) ->
  double_list l h = (<[m := OList (concat (repeat ys (2 ^ k)))]> h, Normal VNone).
Proof.
  intros Hml Hl Hm.
  pose proof (alias_loop l m k k 0 ys h Hml Hl Hm ltac:(lia)) as HL.
  remember (replicate k (VRef m)) as xs eqn:Exs.
  unfold double_list, read_list. unfold_M. simpl. rewrite Hl. simpl. subst xs.
  rewrite length_replicate, HL. done.
Qed.

(** ** Instances on the notebook's own inputs *)

Lemma clean_names_result_witness :
  heap_of names_list !! 1%positive = Some (OList names_list) /\
  Forall (fun v => is_ascii_val v = true) names_list /\
  exists r, clean_names 1%positive (heap_of names_list) =
      (<[r := OList (map clean_val names_list)]> (heap_of names_list), Normal (VRef r)) /\
    heap_of names_list !! r = None.
Proof.
  split; [reflexivity|]. split; [repeat constructor|].
  apply (clean_names_result (heap_of names_list) 1%positive names_list);
    [reflexivity|repeat constructor].
Defined.


Lemma clean_ops_idempotent_witness :
  is_ascii_str "  Danny    " = true /\
  trimmed (str_capitalize (str_strip "  Danny    ")) = true /\
  apply_ops clean_ops (VStr (str_capitalize (str_strip "  Danny    "))) (heap_of []) =
    (heap_of [], Normal (VStr (str_capitalize (str_strip "  Danny    ")))).
Proof.
  split; [vm_compute; reflexivity|].
  apply (clean_ops_idempotent "  Danny    " (heap_of [])). vm_compute. reflexivity.
Defined.

Lemma sorted_strings_lex_witness :
  heap_of strings_list !! 1%positive = Some (OList strings_list) /\
  forallb is_str strings_list = true /\
  exists r ys, py_sorted 1%positive no_key (heap_of strings_list) =
      (<[r := OList ys]> (heap_of strings_list), Normal (VRef r)) /\
    heap_of strings_list !! r = None /\ Permutation ys strings_list /\
    Sorted (fun a b => String.ltb (str_of b) (str_of a) = false) ys.
Proof.
  split; [reflexivity|]. split; [reflexivity|].
  apply (sorted_strings_lex (heap_of strings_list) 1%positive strings_list); reflexivity.
Defined.


Lemma sorted_strings_mixed_witness :
  heap_of [VStr "foo"; VStr "bar"; VInt 1] !! 1%positive =
    Some (OList (VStr "foo" :: [VStr "bar"] ++ VInt 1 :: [])) /\
  forallb is_str [VStr "bar"] = true /\ is_str (VInt 1) = false /\
  (py_sorted 1%positive no_key (heap_of [VStr "foo"; VStr "bar"; VInt 1])).2 =
    Exc (TypeError "'<' not supported between instances").
Proof.
  split; [reflexivity|]. split; [reflexivity|]. split; [reflexivity|].
  apply (sorted_strings_mixed (heap_of [VStr "foo"; VStr "bar"; VInt 1]) 1%positive "foo"
           [VStr "bar"] (VInt 1) []); reflexivity.
Defined.

Lemma get_counts_sum_witness :
  heap_of a_list !! 1%positive = Some (OList a_list) /\ forallb hashable a_list = true /\
  exists r h' ys, get_counts 1%positive (heap_of a_list) = (h', Normal (VRef r)) /\
    h' !! r = Some (OList ys) /\ sum_counts ys = Z.of_nat (length a_list).
Proof.
  split; [reflexivity|]. split; [reflexivity|].
  apply (get_counts_sum (heap_of a_list) 1%positive a_list); reflexivity.
Defined.

Lemma get_counts_fresh_frame_witness :
  heap_of a_list !! 1%positive = Some (OList a_list) /\ forallb hashable a_list = true /\
  exists r h', get_counts 1%positive (heap_of a_list) = (h', Normal (VRef r)) /\
    heap_of a_list !! r = None /\
    forall l, is_Some (heap_of a_list !! l) -> h' !! l = heap_of a_list !! l.
Proof.
  split; [reflexivity|]. split; [reflexivity|].
  apply (get_counts_fresh_frame (heap_of a_list) 1%positive a_list); reflexivity.
Defined.

Lemma double_list_none_witness :
  heap_of [VInt 1; VNone] !! 1%positive = Some (OList ([VInt 1] ++ VNone :: [])) /\
  forallb is_scalar [VInt 1] = true /\
  double_list 1%positive (heap_of [VInt 1; VNone]) =
  (<[1%positive := OList (map doubled [VInt 1] ++ VNone :: [])]> (heap_of [VInt 1; VNone]),
   Exc (TypeError "unsupported operand type(s) for *=")).
Proof.
  split; [reflexivity|]. split; [reflexivity|].
  apply (double_list_none (heap_of [VInt 1; VNone]) 1%positive [VInt 1] []); reflexivity.
Defined.

Lemma double_list_aliased_witness :
  2%positive <> 1%positive /\
  (<[2%positive := OList [VInt 1]]> (heap_of (replicate 2 (VRef 2%positive)))) !! 1%positive =
    Some (OList (replicate 2 (VRef 2%positive))) /\
  (<[2%positive := OList [VInt 1]]> (heap_of (replicate 2 (VRef 2%positive)))) !! 2%positive =
    Some (OList [VInt 1]) /\
  double_list 1%positive (<[2%positive := OList [VInt 1]]> (heap_of (replicate 2 (VRef 2%positive)))) =
  (<[2%positive := OList (concat (repeat [VInt 1] (2 ^ 2)))]>
     (<[2%positive := OList [VInt 1]]> (heap_of (replicate 2 (VRef 2%positive)))), Normal VNone).
Proof.
  split; [lia|]. split; [reflexivity|]. split; [reflexivity|].
  apply (double_list_aliased (<[2%positive := OList [VInt 1]]> (heap_of (replicate 2 (VRef 2%positive))))
           1%positive 2%positive 2 [VInt 1]); [lia|reflexivity|reflexivity].
Defined.
